(** * miraiml.pipeline: the class factory [compose]

    A shallow embedding of [src/miraiml/pipeline.py].  [compose] validates a
    list of [(alias, class)] pairs and, when every check passes, creates a new
    class object with [type('MiraiPipeline', (BasePipelineClass,), dict(steps=steps))].

    Python exceptions are values of [exception]; a computation that may raise
    and may allocate a class object lives in the monad [M], whose state is the
    store of class objects.  The naming predicate [compose] imports from
    [miraiml.util] is a parameter of the embedding.

    The base class [miraiml.core.BasePipelineClass] is not part of the
    sources: its constructor, [get_params] and [set_params] are modelled from
    the specification, over an abstract protocol for the step types.

    Layout: Python values and classes; the monad; [compose]; the error
    taxonomy and the naming contract; pipeline instances; then the
    properties, from the loop of [compose] up to the parameter round trip. *)

From Stdlib Require Import Ascii.
From stdpp Require Import gmap strings list fin_maps pretty.

(** ** Python values, classes and exceptions *)

(** The values an alias can be.  [isinstance(alias, str)] holds for [PyStr]
    only. *)
Inductive pyval :=
  | PyStr (s : string)
  | PyInt (n : Z)
  | PyBool (b : bool)
  | PyNone.

Global Instance pyval_eq_dec : EqDecision pyval.
Proof. solve_decision. Defined.

Definition isinstance_str (v : pyval) : bool :=
  match v with PyStr _ => true | _ => false end.

(** ['{}'.format(v)] *)
Definition format (v : pyval) : string :=
  match v with
  | PyStr s => s
  | PyInt n => pretty n
  | PyBool true => "True"
  | PyBool false => "False"
  | PyNone => "None"
  end.

(** A class attribute is either something callable (a method) or a plain
    data attribute. *)
Inductive attribute :=
  | Method
  | Data (v : pyval).

Definition callable (a : attribute) : bool :=
  match a with Method => true | Data _ => false end.

(** A step class: its [__name__], the attributes its [dir] lists and the
    keyword defaults of its constructor ([compose] looks at the first two
    only). *)
Record class_type := Class_type {
  __name__ : string;
  attributes : list (string * attribute);
  defaults : list (string * pyval)
}.

(** [dir(class_type)]: the attribute names. *)
Definition dir (c : class_type) : list string := (attributes c).*1.

Inductive exception :=
  | TypeError (msg : string)
  | ValueError (msg : string)
  | NotImplementedError (msg : string).

(** The class object that [type(name, bases, dict(steps=steps))] creates. *)
Record pipeline_class := Pipeline_class {
  cls_name : string;
  cls_bases : list string;
  steps : list (pyval * class_type)
}.

(** ** The monad of [compose]: class objects live in a store, identified by
    their address; a computation raises or returns. *)

Abbreviation store := (list pipeline_class).

Definition M (A : Type) : Type := store → (exception + A) * store.

Global Instance M_ret : MRet M := λ A x σ, (inr x, σ).
Global Instance M_bind : MBind M := λ A B f m σ,
  match m σ with
  | (inl e, σ') => (inl e, σ')
  | (inr x, σ') => f x σ'
  end.

Definition raise {A} (e : exception) : M A := λ σ, (inl e, σ).

Definition lift {A} (r : exception + A) : M A := λ σ, (r, σ).

(** [type(name, bases, dict(steps=steps))]: a new class object at a fresh
    address. *)
Definition type_ (name : string) (bases : list string)
    (steps : list (pyval * class_type)) : M nat :=
  λ σ, (inr (length σ), σ ++ [Pipeline_class name bases steps]).

(** ** compose *)

Section Compose.

(** [miraiml.util.is_valid_pipeline_name], imported by the module. *)
Variable is_valid_pipeline_name : string → bool.

(** [name in class_content] *)
Definition contains (class_content : list string) (name : string) : bool :=
  bool_decide (name ∈ class_content).

(** The [for alias, class_type in steps] loop (lines 118-141); [n] is
    [len(steps)], [aliases] the list built so far.  Past the [isinstance]
    check the alias is a string, [format alias] being that string. *)
Fixpoint compose_loop (n : nat) (aliases : list string)
    (rest : list (pyval * class_type)) : exception + list string :=
  match rest with
  | [] => inr aliases
  | (alias, class_type) :: rest =>
    if negb (isinstance_str alias) then
      inl (TypeError (format alias +:+ " is not a string"))
    else
      let alias := format alias in
      if negb (is_valid_pipeline_name alias) then
        inl (ValueError (alias +:+ " is not allowed for an alias"))
      else
        let class_content := dir class_type in
        if negb (contains class_content "fit") then
          inl (NotImplementedError (__name__ class_type +:+ " must implement fit"))
        else
          let aliases := aliases ++ [alias] in
          if length aliases <? n then
            if negb (contains class_content "transform") then
              inl (NotImplementedError
                     (__name__ class_type +:+ " must implement transform"))
            else compose_loop n aliases rest
          else
            if negb (contains class_content "predict")
               && negb (contains class_content "predict_proba") then
              inl (NotImplementedError
                     (__name__ class_type +:+ " must implement predict or predict_proba"))
            else compose_loop n aliases rest
  end.

Definition compose (steps : list (pyval * class_type)) : M nat :=
  aliases ← lift (compose_loop (length steps) [] steps);
  if bool_decide (size (list_to_set (C:=gset string) aliases) ≠ length aliases) then
    raise (ValueError "Repeated aliases are not allowed")
  else
    type_ "MiraiPipeline" ["BasePipelineClass"] steps.

(** *** The checks of one loop iteration, by position

    [last] says whether the descriptor is the final one of [steps], which is
    what [len(aliases) < len(steps)] decides after the append. *)

Definition capable (last : bool) (c : class_type) : bool :=
  contains (dir c) "fit"
  && (if last then contains (dir c) "predict" || contains (dir c) "predict_proba"
      else contains (dir c) "transform").

Definition descriptor_ok (last : bool) (d : pyval * class_type) : bool :=
  match d.1 with
  | PyStr a => is_valid_pipeline_name a && capable last d.2
  | _ => false
  end.

(** One iteration of the loop body: the exception it raises, or the alias
    it appends. *)
Definition check_descriptor (last : bool) (d : pyval * class_type) : exception + string :=
  match d.1 with
  | PyStr a =>
    if negb (is_valid_pipeline_name a) then
      inl (ValueError (a +:+ " is not allowed for an alias"))
    else if negb (contains (dir d.2) "fit") then
      inl (NotImplementedError (__name__ d.2 +:+ " must implement fit"))
    else if last then
      if negb (contains (dir d.2) "predict") && negb (contains (dir d.2) "predict_proba")
      then inl (NotImplementedError
                  (__name__ d.2 +:+ " must implement predict or predict_proba"))
      else inr a
    else
      if negb (contains (dir d.2) "transform")
      then inl (NotImplementedError (__name__ d.2 +:+ " must implement transform"))
      else inr a
  | v => inl (TypeError (format v +:+ " is not a string"))
  end.

(** Every descriptor passes the checks of its position. *)
Fixpoint descriptors_ok (steps : list (pyval * class_type)) : bool :=
  match steps with
  | [] => true
  | d :: rest => descriptor_ok (bool_decide (rest = [])) d && descriptors_ok rest
  end.

(** A step list that passes all validation checks. *)
Definition valid_steps (steps : list (pyval * class_type)) : Prop :=
  descriptors_ok steps = true ∧ NoDup steps.*1.

(** Every alias is a string the naming predicate accepts. *)
Definition aliases_valid (steps : list (pyval * class_type)) : Prop :=
  Forall (λ d, ∃ a, d.1 = PyStr a ∧ is_valid_pipeline_name a = true) steps.

End Compose.

(** The three ways a class can miss a capability of its position: no
    [fit]; before the last position, no [transform]; in the last position,
    neither [predict] nor [predict_proba]. *)
Definition lacks_capability (last : bool) (c : class_type) : Prop :=
  contains (dir c) "fit" = false
  ∨ (last = false ∧ contains (dir c) "transform" = false)
  ∨ (last = true ∧ contains (dir c) "predict" = false
     ∧ contains (dir c) "predict_proba" = false).

(** The same class with every attribute turned into a plain data attribute:
    the names stay, nothing is callable any more. *)
Definition uncallable (c : class_type) : class_type :=
  Class_type (__name__ c) ((λ na, (na.1, Data PyNone)) <$> attributes c) (defaults c).

(** The class has an attribute of that name, callable or not. *)
Definition has_attribute (c : class_type) (name : string) : Prop :=
  ∃ x, (name, x) ∈ attributes c.

(** Two descriptors [compose] cannot tell apart: same alias, same class name,
    same attribute names. *)
Definition same_listing (d d' : pyval * class_type) : Prop :=
  d.1 = d'.1 ∧ __name__ d.2 = __name__ d'.2 ∧ dir d.2 = dir d'.2.

(** The class a successful call creates. *)
Definition composed (steps : list (pyval * class_type)) : pipeline_class :=
  Pipeline_class "MiraiPipeline" ["BasePipelineClass"] steps.

(** ** The error taxonomy of the specification

    [InvalidAliasName] and [DuplicateAlias] are both [ValueError] in the
    code; the message tells them apart. *)

Inductive error_kind :=
  | InvalidAliasType
  | InvalidAliasName
  | MissingCapability
  | DuplicateAlias.

Definition classify (e : exception) : error_kind :=
  match e with
  | TypeError _ => InvalidAliasType
  | NotImplementedError _ => MissingCapability
  | ValueError msg =>
    if bool_decide (msg = "Repeated aliases are not allowed") then DuplicateAlias
    else InvalidAliasName
  end.

(** ** The naming predicate

    [compose] calls [miraiml.util.is_valid_pipeline_name], which is not among
    the sources; above it is a parameter.  The definitions below spell out
    the contract the specification gives it. *)

(** [c in string.digits] *)
Definition is_digit (c : Ascii.ascii) : bool :=
  (48 <=? Ascii.nat_of_ascii c) && (Ascii.nat_of_ascii c <=? 57).

Definition starts_with_digit (s : string) : bool :=
  match s with
  | EmptyString => false
  | String c _ => is_digit c
  end.

(** [k] with a leading ["__"] removed. *)
Definition strip_separator (k : string) : option string :=
  match k with
  | String c (String c' rest) =>
    if Ascii.eqb c "_"%char && Ascii.eqb c' "_"%char then Some rest else None
  | _ => None
  end.

(** ['__' in s] *)
Fixpoint contains_separator (s : string) : bool :=
  match s with
  | EmptyString => false
  | String _ s' =>
    match strip_separator s with
    | Some _ => true
    | None => contains_separator s'
    end
  end.

(** Modelled from the spec: [miraiml.util.is_valid_pipeline_name] is missing
    from the sources.  Section 6: "reject empty strings, strings starting with
    a digit, and strings containing the two-character namespace separator";
    every other string is accepted. *)
Definition is_valid_name_spec (s : string) : bool :=
  negb (bool_decide (s = "") || starts_with_digit s || contains_separator s).

(** Modelled from the spec: the contract of the missing
    [is_valid_pipeline_name], as a property of an arbitrary predicate: it
    rejects exactly the empty string, the strings that start with a digit and
    the strings that contain the separator. *)
Definition naming_contract (valid : string → bool) : Prop :=
  ∀ s, valid s = false
       ↔ s = "" ∨ starts_with_digit s = true ∨ contains_separator s = true.


(** The kind of the first check a descriptor fails: the alias type, then the
    alias name, then the capabilities. *)
Definition violation_kind (valid : string → bool) (d : pyval * class_type) : error_kind :=
  match d.1 with
  | PyStr a => if valid a then MissingCapability else InvalidAliasName
  | _ => InvalidAliasType
  end.

(** ** Pipeline instances

    [miraiml.core.BasePipelineClass], the base class of every composed type,
    is not among the sources.  Its constructor, [get_params] and [set_params]
    are modelled below from section 4.2 of the specification. *)

(** Modelled from the spec: the errors of the missing [BasePipelineClass]
    (section 7): [UnknownParameter] for a flat key whose alias names no step;
    an exception of a step's own operation is passed on unchanged. *)
Inductive pipeline_error :=
  | UnknownParameter
  | StepError (e : exception).

(** Modelled from the spec: what the missing [BasePipelineClass] asks of a
    step type (section 6): a constructor taking keyword parameters,
    [get_params] and [set_params].  The step types themselves are external. *)
Class StepProtocol (step : Type) := {
  instantiate : class_type → gmap string pyval → exception + step;
  own_get_params : step → gmap string pyval;
  own_set_params : step → gmap string pyval → exception + step
}.

(** Modelled from the spec: the key splitting of the missing
    [BasePipelineClass] (section 4.2, construction, step 1): a key is split
    "on the first occurrence of the namespace separator into (alias,
    paramName)".  A key without separator has no alias. *)
Fixpoint split_key (k : string) : option (string * string) :=
  match k with
  | EmptyString => None
  | String c k' =>
    match strip_separator k with
    | Some rest => Some (EmptyString, rest)
    | None => prod_map (String c) id <$> split_key k'
    end
  end.

(** Modelled from the spec: the key ["alias__paramName"] the missing
    [get_params] emits (section 4.2). *)
Definition flat_key (alias param : string) : string := alias +:+ "__" +:+ param.


(** Modelled from the spec: the unknown-parameter policy of the missing
    [BasePipelineClass] (section 4.2, step 3, policy (a), which property P6
    and section 7 fix): a key is known when its alias is a declared one. *)
Definition known_key (aliases : list string) (k : string) : bool :=
  match split_key k with
  | Some (a, _) => bool_decide (a ∈ aliases)
  | None => false
  end.

Definition all_keys_known (aliases : list string) (flat : gmap string pyval) : bool :=
  bool_decide (map_Forall (λ k _, known_key aliases k = true) flat).

(** Modelled from the spec: the partition of the missing
    [BasePipelineClass] (section 4.2, step 2): the entries of [flat] whose
    alias is [a], as a sub-mapping keyed by parameter name. *)
Definition partition_entry (a : string) (kv : string * pyval) : option (string * pyval) :=
  match split_key kv.1 with
  | Some (a', p) => if bool_decide (a' = a) then Some (p, kv.2) else None
  | None => None
  end.

Definition partition_params (flat : gmap string pyval) (a : string) : gmap string pyval :=
  list_to_map (omap (partition_entry a) (map_to_list flat)).

(** The descriptors of a pipeline type, with their aliases as strings
    ([compose] admits string aliases only, so nothing is dropped from a
    composed type). *)
Definition str_alias (d : pyval * class_type) : option (string * class_type) :=
  match d.1 with PyStr a => Some (a, d.2) | _ => None end.

Definition declared (cls : pipeline_class) : list (string * class_type) :=
  omap str_alias (steps cls).

Section Pipeline.

Context {step : Type} `{!StepProtocol step}.

(** Modelled from the spec: an instance of the missing [BasePipelineClass]
    (section 3): its ordered sequence of step instances, by alias. *)
Definition pipeline : Type := list (string * step).

(** Modelled from the spec: construction in the missing [BasePipelineClass]
    (section 4.2, steps 2 and 4): each step type, in declared order, is
    instantiated with its sub-mapping. *)
Fixpoint build (flat : gmap string pyval) (descriptors : list (string * class_type))
    : pipeline_error + pipeline :=
  match descriptors with
  | [] => inr []
  | (a, ty) :: rest =>
    match instantiate ty (partition_params flat a) with
    | inl e => inl (StepError e)
    | inr s =>
      match build flat rest with
      | inl e => inl e
      | inr p => inr ((a, s) :: p)
      end
    end
  end.

(** Modelled from the spec: the constructor of the missing
    [BasePipelineClass] (section 4.2): a key with an unknown alias fails the
    construction before any step is instantiated (fail fast). *)
Definition new (cls : pipeline_class) (flat : gmap string pyval)
    : pipeline_error + pipeline :=
  if all_keys_known (declared cls).*1 flat then build flat (declared cls)
  else inl UnknownParameter.


(** Modelled from the spec: the routing of the missing [set_params]
    (section 4.2): each sub-mapping goes to the corresponding step's own
    [set_params], the chain being kept. *)
Fixpoint route (flat : gmap string pyval) (p : pipeline) : pipeline_error + pipeline :=
  match p with
  | [] => inr []
  | (a, s) :: rest =>
    match own_set_params s (partition_params flat a) with
    | inl e => inl (StepError e)
    | inr s' =>
      match route flat rest with
      | inl e => inl e
      | inr p' => inr ((a, s') :: p')
      end
    end
  end.

(** Modelled from the spec: [set_params] of the missing [BasePipelineClass]
    (section 4.2): "same partitioning as construction", failing with
    [UnknownParameter] "under the same policy as construction". *)
Definition set_params (p : pipeline) (flat : gmap string pyval)
    : pipeline_error + pipeline :=
  if all_keys_known p.*1 flat then route flat p else inl UnknownParameter.


End Pipeline.

(** ** Steps for the examples

    A step implementation in the style of scikit-learn's estimators, on which
    the statements below are exercised: an instance is its current
    parameters; the constructor and [set_params] accept the parameter names
    of the class only. *)
Definition sk_instantiate (c : class_type) (kw : gmap string pyval)
    : exception + gmap string pyval :=
  let d : gmap string pyval := list_to_map (defaults c) in
  if bool_decide (dom kw ⊆ dom d) then inr (kw ∪ d)
  else inl (TypeError "__init__() got an unexpected keyword argument").

Definition sk_set_params (s kw : gmap string pyval) : exception + gmap string pyval :=
  if bool_decide (dom kw ⊆ dom s) then inr (kw ∪ s)
  else inl (ValueError "Invalid parameter").

Definition sk_step : StepProtocol (gmap string pyval) :=
  {| instantiate := sk_instantiate;
     own_get_params := λ s, s;
     own_set_params := sk_set_params |}.

(** Step classes used in the examples. *)
Definition transformer : class_type :=
  Class_type "StandardScaler" [("fit", Method); ("transform", Method)]
    [("with_mean", PyBool true); ("with_std", PyBool true)].

Definition estimator : class_type :=
  Class_type "GaussianNB" [("fit", Method); ("predict", Method); ("predict_proba", Method)]
    [("priors", PyNone)].

Definition no_fit : class_type :=
  Class_type "NoFit" [("transform", Method); ("predict", Method)] [].

Definition data_only : class_type :=
  Class_type "DataOnly" [("fit", Data (PyInt 0)); ("predict", Data PyNone)] [].

(** ** The module body (lines 149-165)

    Importing the module runs two calls of [compose] and two [class]
    statements.  The scikit-learn classes it names are parameters. *)

(** The statement [class name(base): ...] of lines 152 and 160: a new class
    object whose only base is the class object at address [base] and which
    finds [steps] where that base has it.  An address [compose] returned is
    always occupied, so the other branch is never taken by the module. *)
Definition class_ (name : string) (base : nat) : M nat :=
  λ σ, match σ !! base with
       | Some b => (inr (length σ), σ ++ [Pipeline_class name [cls_name b] (steps b)])
       | None => (inl (TypeError "bases must be types"), σ)
       end.

Section ModuleBody.

Variable is_valid_pipeline_name : string → bool.
Variables OneHotEncoder SimpleImputer GaussianNB LinearRegression : class_type.

Definition __initial_steps__ : list (pyval * class_type) :=
  [(PyStr "ohe", OneHotEncoder); (PyStr "inpute", SimpleImputer)].

(** Lines 149-165, returning the addresses of [NaiveBayesBaseliner] and
    [LinearRegressionBaseliner]. *)
Definition module_body : M (nat * nat) :=
  base ← compose is_valid_pipeline_name
           (__initial_steps__ ++ [(PyStr "naive", GaussianNB)]);
  NaiveBayesBaseliner ← class_ "NaiveBayesBaseliner" base;
  base ← compose is_valid_pipeline_name
           (__initial_steps__ ++ [(PyStr "linear", LinearRegression)]);
  LinearRegressionBaseliner ← class_ "LinearRegressionBaseliner" base;
  mret (NaiveBayesBaseliner, LinearRegressionBaseliner).

(** What one baseliner needs from the naming predicate and from the three
    classes of its list. *)
Definition baseliner_ready (alias : string) (last : class_type) : bool :=
  is_valid_pipeline_name "ohe" && capable false OneHotEncoder
  && is_valid_pipeline_name "inpute" && capable false SimpleImputer
  && is_valid_pipeline_name alias && capable true last.

End ModuleBody.

(** ** Relations between step lists *)

(** [d'] has the alias of [d] and a class whose [dir] lists at least what the
    class of [d] lists. *)
Definition extends (d d' : pyval * class_type) : Prop :=
  d.1 = d'.1 ∧ dir d.2 ⊆ dir d'.2.

(** Same alias, same class name, and the same names in [dir], in any order
    and any number of times. *)
Definition same_members (d d' : pyval * class_type) : Prop :=
  d.1 = d'.1 ∧ __name__ d.2 = __name__ d'.2 ∧ ∀ x, x ∈ dir d.2 ↔ x ∈ dir d'.2.

(** More classes for the examples. *)
Definition regressor : class_type :=
  Class_type "LinearRegression" [("fit", Method); ("predict", Method)]
    [("fit_intercept", PyBool true)].

Definition transformer_with_predict : class_type :=
  Class_type "KMeans"
    [("predict", Method); ("fit", Method); ("transform", Method); ("fit", Method)]
    [("n_clusters", PyInt 8)].

(** * Properties *)

(** ** The loop of [compose] *)

Section ComposeFacts.

Variable valid : string → bool.

Local Abbreviation check := (check_descriptor valid).
Local Abbreviation ok := (descriptor_ok valid).
Local Abbreviation loop := (compose_loop valid).

Lemma check_inr last d a :
  check last d = inr a ↔ d.1 = PyStr a ∧ ok last d = true.
Proof.
  destruct d as [v c]. unfold check_descriptor, descriptor_ok, capable. simpl.
  destruct v; try (split; [done | intros [? ?]; done]).
  destruct (valid s); simpl; [| split; [done | intros [? ?]; done]].
  destruct (contains (dir c) "fit"); simpl; [| split; [done | intros [? ?]; done]].
  destruct last;
    [destruct (contains (dir c) "predict"), (contains (dir c) "predict_proba")
    | destruct (contains (dir c) "transform")];
    simpl; split; try done; try (intros [? ?]; done);
    try (intros [= ->]; done); intros [[= ->] _]; done.
Qed.

Lemma check_ok last d : ok last d = true → ∃ a, check last d = inr a ∧ d.1 = PyStr a.
Proof.
  intros Hok. destruct d as [v c]. destruct v; try done.
  exists s. split; [| done]. by apply check_inr.
Qed.

(** One iteration: the checks of the position, then the rest of the list. *)
Lemma compose_loop_cons n aliases d rest :
  n = S (length aliases + length rest) →
  loop n aliases (d :: rest) =
    match check (bool_decide (rest = [])) d with
    | inl e => inl e
    | inr a => loop n (aliases ++ [a]) rest
    end.
Proof.
  intros ->. destruct d as [v c]. unfold check_descriptor. simpl.
  destruct v as [s | | |]; try done. cbn [isinstance_str format negb].
  destruct (valid s); simpl; [| done].
  destruct (contains (dir c) "fit"); simpl; [| done].
  rewrite length_app. simpl.
  destruct rest as [| d' rest'].
  - rewrite bool_decide_eq_true_2 by done.
    replace (length aliases + 1 <? S (length aliases + length (@nil (pyval * class_type))))
      with false by (symmetry; apply Nat.ltb_ge; simpl; lia).
    by destruct (negb _ && negb _).
  - rewrite bool_decide_eq_false_2 by done.
    replace (length aliases + 1 <? S (length aliases + length (d' :: rest')))
      with true by (symmetry; apply Nat.ltb_lt; simpl; lia).
    by destruct (negb _).
Qed.

Lemma compose_loop_ok n aliases rest :
  n = length aliases + length rest →
  descriptors_ok valid rest = true →
  loop n aliases rest = inr (aliases ++ (omap str_alias rest).*1).
Proof.
  revert aliases. induction rest as [| d rest IH]; intros aliases Hn Hok.
  - simpl. by rewrite app_nil_r.
  - rewrite compose_loop_cons by (simpl in Hn; lia).
    simpl in Hok. apply andb_true_iff in Hok as [Hd Hrest].
    destruct (check_ok _ _ Hd) as (a & -> & Ha).
    rewrite IH; [| rewrite length_app; simpl in *; lia | done].
    simpl. unfold str_alias at 2. rewrite Ha. simpl.
    by rewrite <- app_assoc.
Qed.

(** The first descriptor that fails a check decides the exception, whatever
    follows it. *)
Lemma compose_loop_fail n aliases pre d post e :
  n = length aliases + length (pre ++ d :: post) →
  Forall (λ d', ok false d' = true) pre →
  check (bool_decide (post = [])) d = inl e →
  loop n aliases (pre ++ d :: post) = inl e.
Proof.
  revert aliases. induction pre as [| d' pre IH]; intros aliases Hn Hpre Hd.
  - cbn [app]. rewrite compose_loop_cons by (simpl in Hn; lia). by rewrite Hd.
  - apply Forall_cons in Hpre as [Hd' Hpre].
    cbn [app]. rewrite compose_loop_cons by (simpl in Hn; lia).
    rewrite bool_decide_eq_false_2 by (by destruct pre).
    destruct (check_ok _ _ Hd') as (a & -> & _).
    apply IH; [rewrite length_app; simpl in *; lia | done | done].
Qed.

Lemma compose_loop_inr n aliases rest l :
  n = length aliases + length rest →
  loop n aliases rest = inr l →
  descriptors_ok valid rest = true.
Proof.
  revert aliases. induction rest as [| d rest IH]; intros aliases Hn Hl; [done |].
  rewrite compose_loop_cons in Hl by (simpl in Hn; lia).
  destruct (check _ d) as [e | a] eqn:Hd; [done |].
  apply check_inr in Hd as [_ Hd]. simpl. rewrite Hd. simpl.
  eapply IH; [| done]. rewrite length_app. simpl in *. lia.
Qed.

End ComposeFacts.

(** ** [len(set(aliases)) != len(aliases)] detects a repeated alias *)

Lemma size_list_to_set_le (l : list string) :
  size (list_to_set (C:=gset string) l) ≤ length l.
Proof.
  induction l as [| x l IH].
  - by rewrite list_to_set_nil, size_empty.
  - rewrite list_to_set_cons, size_union_alt, size_singleton.
    assert (size (list_to_set l ∖ {[x]} : gset string)
            ≤ size (list_to_set l : gset string)) as Hle
      by apply subseteq_size, subseteq_difference_l, reflexivity.
    simpl. lia.
Qed.

Lemma size_list_to_set_NoDup (l : list string) :
  size (list_to_set (C:=gset string) l) = length l ↔ NoDup l.
Proof.
  split; [| apply size_list_to_set].
  induction l as [| x l IH]; intros Hsize; [constructor |].
  rewrite list_to_set_cons in Hsize. simpl in Hsize.
  destruct (decide (x ∈ l)) as [Hin | Hnin].
  - assert ({[x]} ∪ list_to_set l = (list_to_set l : gset string)) as Heq.
    { apply subseteq_union_1_L, singleton_subseteq_l.
      by apply elem_of_list_to_set. }
    rewrite Heq in Hsize. pose proof (size_list_to_set_le l). lia.
  - constructor; [done |]. apply IH.
    rewrite size_union in Hsize
      by (rewrite disjoint_singleton_l, elem_of_list_to_set; done).
    rewrite size_singleton in Hsize. lia.
Qed.

(** ** The outcomes of [compose] *)

Section ComposeOutcomes.

Variable valid : string → bool.

Lemma compose_unfold steps σ :
  compose valid steps σ =
    match compose_loop valid (length steps) [] steps with
    | inl e => (inl e, σ)
    | inr aliases =>
      if bool_decide (NoDup aliases) then (inr (length σ), σ ++ [composed steps])
      else (inl (ValueError "Repeated aliases are not allowed"), σ)
    end.
Proof.
  unfold compose, mbind, M_bind, lift, raise, type_.
  destruct (compose_loop valid (length steps) [] steps) as [e | aliases]; [done |].
  destruct (decide (NoDup aliases)) as [Hnd | Hnd].
  - rewrite (bool_decide_eq_true_2 (NoDup aliases)) by done.
    rewrite bool_decide_eq_false_2; [done |].
    intros Hne. apply Hne. by apply size_list_to_set_NoDup.
  - rewrite (bool_decide_eq_false_2 (NoDup aliases)) by done.
    rewrite bool_decide_eq_true_2; [done |].
    intros Heq. apply Hnd. by apply size_list_to_set_NoDup.
Qed.

Lemma descriptors_ok_aliases steps :
  descriptors_ok valid steps = true →
  steps.*1 = PyStr <$> (omap str_alias steps).*1.
Proof.
  induction steps as [| d steps IH]; [done |]. simpl.
  intros [Hd Hrest]%andb_true_iff.
  destruct d as [v c]. destruct v; try done.
  unfold str_alias at 1. simpl. f_equal. by apply IH.
Qed.

Lemma descriptors_ok_NoDup steps :
  descriptors_ok valid steps = true →
  NoDup steps.*1 ↔ NoDup (omap str_alias steps).*1.
Proof.
  intros Hok. rewrite (descriptors_ok_aliases _ Hok).
  split; [apply NoDup_fmap_1 | apply NoDup_fmap_2]. by intros ?? [=].
Qed.

(** When every descriptor passes its checks, only a repeated alias stands
    between the list and the new class. *)
Lemma compose_descriptors_ok steps σ :
  descriptors_ok valid steps = true →
  compose valid steps σ =
    if bool_decide (NoDup steps.*1) then (inr (length σ), σ ++ [composed steps])
    else (inl (ValueError "Repeated aliases are not allowed"), σ).
Proof.
  intros Hok. rewrite compose_unfold, compose_loop_ok by done. simpl.
  apply descriptors_ok_NoDup in Hok.
  destruct (decide (NoDup steps.*1)) as [Hnd | Hnd].
  - rewrite !bool_decide_eq_true_2; [done | done | by apply Hok].
  - rewrite !bool_decide_eq_false_2; [done | done | by rewrite <- Hok].
Qed.

(** The first failing descriptor decides the exception. *)
Lemma compose_first_failure pre d post e σ :
  Forall (λ d', descriptor_ok valid false d' = true) pre →
  check_descriptor valid (bool_decide (post = [])) d = inl e →
  compose valid (pre ++ d :: post) σ = (inl e, σ).
Proof.
  intros Hpre Hd. rewrite compose_unfold.
  by rewrite (compose_loop_fail valid _ [] pre d post e).
Qed.

(** [compose] returns a class only for a list that passes every check. *)
Lemma compose_inr_valid steps σ t σ' :
  compose valid steps σ = (inr t, σ') →
  valid_steps valid steps ∧ t = length σ ∧ σ' = σ ++ [composed steps].
Proof.
  rewrite compose_unfold.
  destruct (compose_loop valid (length steps) [] steps) as [e | aliases] eqn:Hloop;
    [done |].
  pose proof (compose_loop_inr valid _ [] steps aliases eq_refl Hloop) as Hok.
  rewrite compose_loop_ok in Hloop by done. simpl in Hloop.
  injection Hloop as <-.
  case_bool_decide as Hnd; [| done]. intros [= <- <-].
  split; [| done]. split; [done |]. by apply descriptors_ok_NoDup.
Qed.

(** A descriptor list in which every descriptor is acceptable in a
    non-final position. *)
Lemma descriptors_ok_app pre rest :
  rest ≠ [] →
  descriptors_ok valid (pre ++ rest) =
    forallb (descriptor_ok valid false) pre && descriptors_ok valid rest.
Proof.
  intros Hrest. induction pre as [| d pre IH]; [done |]. simpl.
  rewrite IH, andb_assoc.
  rewrite (bool_decide_eq_false_2 (pre ++ rest = [])); [done |].
  by destruct pre, rest.
Qed.

End ComposeOutcomes.

(** ** Messages and the taxonomy *)

Lemma string_app_cons (c : ascii) (s t : string) :
  String c s +:+ t = String c (s +:+ t).
Proof. reflexivity. Qed.

Lemma string_app_nil (t : string) : "" +:+ t = t.
Proof. reflexivity. Qed.

Lemma string_length_app (s t : string) :
  String.length (s +:+ t) = String.length s + String.length t.
Proof.
  induction s as [| c s IH]; [done |].
  rewrite string_app_cons. simpl. by rewrite IH.
Qed.

Lemma string_app_inj_r (s1 s2 t : string) : s1 +:+ t = s2 +:+ t → s1 = s2.
Proof.
  revert s2. induction s1 as [| c s1 IH]; intros [| c' s2] Heq.
  - done.
  - apply (f_equal String.length) in Heq.
    rewrite string_app_nil, string_app_cons in Heq. simpl in Heq.
    rewrite string_length_app in Heq. lia.
  - apply (f_equal String.length) in Heq.
    rewrite string_app_nil, string_app_cons in Heq. simpl in Heq.
    rewrite string_length_app in Heq. lia.
  - rewrite !string_app_cons in Heq. injection Heq as -> Heq.
    f_equal. by apply IH.
Qed.

Lemma classify_alias_name a :
  classify (ValueError (a +:+ " is not allowed for an alias")) = InvalidAliasName.
Proof.
  unfold classify. rewrite bool_decide_eq_false_2; [done |].
  intros Heq. pose proof (f_equal String.length Heq) as Hlen.
  rewrite string_length_app in Hlen. simpl in Hlen.
  destruct a as [| c1 [| c2 [| c3 [| c4 [| c5 a]]]]]; simpl in Hlen; try lia.
  rewrite !string_app_cons, string_app_nil in Heq. congruence.
Qed.

Lemma check_inl_kind valid last d :
  descriptor_ok valid last d = false →
  ∃ e, check_descriptor valid last d = inl e ∧ classify e = violation_kind valid d.
Proof.
  intros Hbad. destruct (check_descriptor valid last d) as [e | a] eqn:Hcheck.
  - exists e. split; [done |]. revert Hcheck.
    destruct d as [v c]. unfold check_descriptor, violation_kind. simpl.
    destruct v; try (intros [= <-]; done).
    destruct (valid s); simpl.
    + destruct (contains (dir c) "fit"); simpl; [| by intros [= <-]].
      destruct last; [destruct (negb _ && negb _) | destruct (negb _)];
        by intros [= <-].
    + intros [= <-]. apply classify_alias_name.
  - apply check_inr in Hcheck as [_ Hok]. congruence.
Qed.

(** ** Claims about [compose] *)

(** C9: [compose] applied to the empty list raises nothing: it returns a new
    class whose [steps] is the empty list. *)
Theorem compose_empty (valid : string → bool) (σ : store) :
  compose valid [] σ = (inr (length σ), σ ++ [composed []])
  ∧ (σ ++ [composed []]) !! length σ = Some (composed [])
  ∧ steps (composed []) = [].
Proof.
  split; [done |]. split; [| done]. by apply list_lookup_middle.
Qed.

(** C6: [compose] is deterministic and reads no state: run in any two stores
    on the same list, both calls raise the same exception and leave the store
    alone, or both return a class named and bound alike, the store growing by
    that class only; a second call after a first returns a class at another
    address and leaves the first class in place. *)
Theorem compose_pure (valid : string → bool) (steps : list (pyval * class_type))
    (σ1 σ2 : store) :
  match compose valid steps σ1, compose valid steps σ2 with
  | (inl e1, σ1'), (inl e2, σ2') => e1 = e2 ∧ σ1' = σ1 ∧ σ2' = σ2
  | (inr t1, σ1'), (inr t2, σ2') =>
    σ1' = σ1 ++ [composed steps] ∧ σ2' = σ2 ++ [composed steps]
    ∧ σ1' !! t1 = Some (composed steps) ∧ σ2' !! t2 = Some (composed steps)
    ∧ match compose valid steps σ1' with
      | (inr t3, σ3) =>
        t3 ≠ t1 ∧ σ3 !! t1 = Some (composed steps) ∧ σ3 !! t3 = Some (composed steps)
      | (inl _, _) => False
      end
  | _, _ => False
  end.
Proof.
  rewrite !compose_unfold.
  destruct (compose_loop valid (length steps) [] steps) as [e | aliases] eqn:Hloop;
    [done |].
  case_bool_decide; [| done].
  rewrite compose_unfold, Hloop, bool_decide_eq_true_2 by done.
  repeat split.
  - by apply list_lookup_middle.
  - by apply list_lookup_middle.
  - rewrite length_app. simpl. lia.
  - rewrite lookup_app_l by (rewrite length_app; simpl; lia).
    by apply list_lookup_middle.
  - by apply list_lookup_middle.
Qed.

(** [compose] looks at aliases, class names and attribute names only. *)
Lemma compose_loop_same_listing valid n aliases rest rest' :
  Forall2 same_listing rest rest' →
  compose_loop valid n aliases rest = compose_loop valid n aliases rest'.
Proof.
  intros Hsame. revert aliases.
  induction Hsame as [| [v c] [v' c'] rest rest' (Hv & Hname & Hdir) _ IH];
    intros aliases; [done |].
  simpl in Hv, Hname, Hdir. subst v'. simpl.
  destruct v; try done. rewrite Hname, Hdir.
  by repeat (case_match; try done).
Qed.

Lemma compose_same_listing valid steps steps' σ :
  Forall2 same_listing steps steps' →
  (compose valid steps σ).1 = (compose valid steps' σ).1.
Proof.
  intros Hsame. rewrite !compose_unfold.
  rewrite <- (Forall2_length _ _ _ Hsame).
  rewrite <- (compose_loop_same_listing valid _ _ _ _ Hsame).
  destruct (compose_loop valid (length steps) [] steps) as [e | aliases]; [done |].
  by case_bool_decide.
Qed.

Lemma uncallable_same_listing steps :
  Forall2 same_listing (prod_map id uncallable <$> steps) steps.
Proof.
  induction steps as [| [v c] steps IH]; constructor; [| done].
  split; [done |]. split; [done |].
  unfold dir, uncallable. simpl. rewrite <- list_fmap_compose.
  by apply list_fmap_ext.
Qed.

Lemma has_attribute_contains c name :
  has_attribute c name → contains (dir c) name = true.
Proof.
  intros [x Hx]. apply bool_decide_eq_true_2.
  unfold dir. apply list_elem_of_fmap. by exists (name, x).
Qed.

Lemma descriptors_ok_intro valid steps :
  (∀ pre d post, steps = pre ++ d :: post →
     descriptor_ok valid (bool_decide (post = [])) d = true) →
  descriptors_ok valid steps = true.
Proof.
  induction steps as [| d rest IH]; intros Hall; [done |].
  simpl. rewrite (Hall [] d rest) by done. apply IH.
  intros pre d' post ->. by apply (Hall (d :: pre)).
Qed.

(** C10: the capability checks look at attribute names only, never at what
    the attribute is.  An attribute of a class, callable or not, makes the
    membership test on its name succeed; a list with distinct accepted aliases
    whose classes have attributes named as their positions require, whatever
    those attributes are, is taken by [compose], and so is its copy in which
    every attribute is a non-callable data attribute; and in general that
    copy has the outcome of the original, the same exception or a class just
    the same. *)
Theorem compose_ignores_callability (valid : string → bool)
    (steps : list (pyval * class_type)) (σ : store) :
  let steps' := prod_map id uncallable <$> steps in
  (∀ c name x, (name, x) ∈ attributes c → contains (dir c) name = true)
  ∧ (NoDup steps.*1 →
     (∀ pre d post,
        steps = pre ++ d :: post →
        ∃ a, d.1 = PyStr a ∧ valid a = true
          ∧ has_attribute d.2 "fit"
          ∧ (post ≠ [] → has_attribute d.2 "transform")
          ∧ (post = [] → has_attribute d.2 "predict"
                         ∨ has_attribute d.2 "predict_proba")) →
     compose valid steps σ = (inr (length σ), σ ++ [composed steps])
     ∧ compose valid steps' σ = (inr (length σ), σ ++ [composed steps']))
  ∧ Forall (λ d, Forall (λ na, callable na.2 = false) (attributes d.2)) steps'
  ∧ (compose valid steps' σ).1 = (compose valid steps σ).1
  ∧ match compose valid steps σ with
    | (inr _, _) => (compose valid steps' σ).2 = σ ++ [composed steps']
    | (inl _, _) => True
    end.
Proof.
  intros steps'.
  pose proof (compose_same_listing valid steps' steps σ
                (uncallable_same_listing steps)) as Hsame.
  assert (match compose valid steps σ with
          | (inr _, _) => (compose valid steps' σ).2 = σ ++ [composed steps']
          | (inl _, _) => True
          end) as Hstore.
  { destruct (compose valid steps σ) as [[e | t] σ'] eqn:Hrun; [done |].
    destruct (compose valid steps' σ) as [[e' | t'] σ''] eqn:Hrun'; [done |].
    by apply compose_inr_valid in Hrun' as (_ & _ & ->). }
  split; [| split; [| split; [| split]]]; try done.
  - intros c name x Hx. apply has_attribute_contains. by exists x.
  - intros Hnd Hall.
    assert (compose valid steps σ = (inr (length σ), σ ++ [composed steps])) as Hrun.
    { rewrite compose_descriptors_ok; [by rewrite bool_decide_eq_true_2 |].
      apply descriptors_ok_intro. intros pre d post Hsplit.
      destruct (Hall pre d post Hsplit) as (a & Ha & Hvalid & Hfit & Htr & Hp).
      unfold descriptor_ok, capable. rewrite Ha, Hvalid.
      rewrite (has_attribute_contains _ _ Hfit). simpl.
      case_bool_decide as Hpost.
      - apply orb_true_iff.
        destruct (Hp Hpost) as [H | H]; [left | right];
          by apply has_attribute_contains.
      - by apply has_attribute_contains, Htr. }
    split; [done |]. rewrite Hrun in Hsame, Hstore. simpl in Hsame, Hstore.
    destruct (compose valid steps' σ) as [r σ'']. simpl in *. by subst.
  - apply Forall_fmap, Forall_forall. intros [v c] _. simpl.
    by apply Forall_fmap, Forall_forall.
Qed.

Lemma compose_ignores_callability_witness :
  Forall (λ na, callable na.2 = false) (attributes data_only)
  ∧ compose is_valid_name_spec [(PyStr "e", data_only)] [] =
      (inr 0, [composed [(PyStr "e", data_only)]]).
Proof.
  split; [by repeat constructor |].
  destruct (compose_ignores_callability is_valid_name_spec [(PyStr "e", data_only)] [])
    as (_ & Hadmit & _).
  apply Hadmit.
  - repeat constructor. rewrite elem_of_nil. tauto.
  - intros pre d post Hsplit.
    destruct pre as [| d0 [| d1 pre]]; [| by destruct post | by destruct post].
    injection Hsplit as <- <-. exists "e".
    split; [reflexivity |]. split; [reflexivity |].
    split; [exists (Data (PyInt 0)); by left |].
    split; [done |]. intros _. left. exists (Data PyNone). right. by left.
Defined.

(** A class whose [fit] and [predict] are plain data is taken as a last
    step. *)
Example compose_data_only :
  Forall (λ na, callable na.2 = false) (attributes data_only)
  ∧ compose is_valid_name_spec [(PyStr "e", data_only)] [] =
      (inr 0, [composed [(PyStr "e", data_only)]]).
Proof. split; [by repeat constructor | reflexivity]. Qed.

(** *** The order of the checks *)

(** An exception out of the loop comes from the first descriptor that fails
    a check of its position. *)
Lemma compose_loop_inl valid n aliases rest e :
  n = length aliases + length rest →
  compose_loop valid n aliases rest = inl e →
  ∃ pre d post, rest = pre ++ d :: post
    ∧ Forall (λ d', descriptor_ok valid false d' = true) pre
    ∧ check_descriptor valid (bool_decide (post = [])) d = inl e.
Proof.
  revert aliases. induction rest as [| d rest IH]; intros aliases Hn Hloop; [done |].
  rewrite compose_loop_cons in Hloop by (simpl in Hn; lia).
  destruct (check_descriptor valid (bool_decide (rest = [])) d) as [e' | a] eqn:Hd.
  - injection Hloop as ->. by exists [], d, rest.
  - destruct rest as [| d' rest']; [done |].
    rewrite bool_decide_eq_false_2 in Hd by done.
    apply check_inr in Hd as [_ Hd].
    apply IH in Hloop as (pre & d0 & post & -> & Hpre & Hd0);
      [| rewrite length_app; simpl in *; lia].
    exists (d :: pre), d0, post. split; [done |]. split; [by constructor | done].
Qed.

Lemma compose_inl valid steps σ e σ' :
  compose valid steps σ = (inl e, σ') →
  σ' = σ ∧
  ((∃ pre d post, steps = pre ++ d :: post
      ∧ Forall (λ d', descriptor_ok valid false d' = true) pre
      ∧ check_descriptor valid (bool_decide (post = [])) d = inl e)
   ∨ (e = ValueError "Repeated aliases are not allowed"
      ∧ descriptors_ok valid steps = true ∧ ¬ NoDup steps.*1)).
Proof.
  rewrite compose_unfold.
  destruct (compose_loop valid (length steps) [] steps) as [e' | aliases] eqn:Hloop.
  - intros [= -> <-]. split; [done |]. left.
    exact (compose_loop_inl valid _ [] steps e eq_refl Hloop).
  - pose proof (compose_loop_inr valid _ [] steps aliases eq_refl Hloop) as Hok.
    rewrite compose_loop_ok in Hloop by done. simpl in Hloop. injection Hloop as <-.
    case_bool_decide as Hnd; [done |]. intros [= <- <-].
    split; [done |]. right. split; [done |]. split; [done |].
    by rewrite descriptors_ok_NoDup.
Qed.

Lemma check_inl_not_ok valid last d e :
  check_descriptor valid last d = inl e → descriptor_ok valid last d = false.
Proof.
  intros Hd. destruct (descriptor_ok valid last d) eqn:Hok; [| done].
  destruct (check_ok valid _ _ Hok) as (a & Ha & _). congruence.
Qed.

Lemma descriptor_ok_capable valid last d :
  descriptor_ok valid last d = true → capable last d.2 = true.
Proof.
  unfold descriptor_ok. destruct d.1; try done. by intros [_ ?]%andb_true_iff.
Qed.

Lemma descriptors_ok_at valid steps pre d post :
  descriptors_ok valid steps = true →
  steps = pre ++ d :: post →
  descriptor_ok valid (bool_decide (post = [])) d = true.
Proof.
  intros Hok ->. rewrite descriptors_ok_app in Hok by done.
  apply andb_true_iff in Hok as [_ Hok]. simpl in Hok.
  by apply andb_true_iff in Hok as [Hok _].
Qed.

(** When the descriptors before [d] pass and [d] does not, [d]'s first
    failing check raises. *)
Lemma compose_first_violation valid pre d post σ :
  Forall (λ d', descriptor_ok valid false d' = true) pre →
  descriptor_ok valid (bool_decide (post = [])) d = false →
  ∃ e, check_descriptor valid (bool_decide (post = [])) d = inl e
    ∧ compose valid (pre ++ d :: post) σ = (inl e, σ)
    ∧ classify e = violation_kind valid d.
Proof.
  intros Hpre Hbad.
  destruct (check_inl_kind valid _ _ Hbad) as (e & Hd & Hkind).
  exists e. split; [done |]. split; [| done].
  by apply compose_first_failure.
Qed.

Lemma compose_duplicate_alias valid steps σ :
  (∃ e, compose valid steps σ = (inl e, σ) ∧ classify e = DuplicateAlias)
  ↔ descriptors_ok valid steps = true ∧ ¬ NoDup steps.*1.
Proof.
  split.
  - intros (e & Hrun & Hkind).
    apply compose_inl in Hrun as [_ [(pre & d & post & -> & Hpre & Hd) | (_ & ? & ?)]];
      [| done].
    pose proof (check_inl_not_ok _ _ _ _ Hd) as Hbad.
    destruct (check_inl_kind valid _ _ Hbad) as (e' & Hd' & Hkind').
    rewrite Hd in Hd'. injection Hd' as <-.
    rewrite Hkind in Hkind'. unfold violation_kind in Hkind'.
    by repeat case_match.
  - intros [Hok Hdup]. exists (ValueError "Repeated aliases are not allowed").
    split; [| done].
    rewrite compose_descriptors_ok by done.
    by rewrite bool_decide_eq_false_2.
Qed.

(** A list passes the checks of the non-final positions, or has a first
    descriptor that does not. *)
Lemma first_not_ok valid (l : list (pyval * class_type)) :
  Forall (λ d, descriptor_ok valid false d = true) l
  ∨ ∃ l1 d l2, l = l1 ++ d :: l2
      ∧ Forall (λ d', descriptor_ok valid false d' = true) l1
      ∧ descriptor_ok valid false d = false.
Proof.
  induction l as [| d l IH]; [by left |].
  destruct (descriptor_ok valid false d) eqn:Hd.
  - destruct IH as [Hall | (l1 & d1 & l2 & -> & Hl1 & Hd1)].
    + left. by constructor.
    + right. exists (d :: l1), d1, l2. split; [done |]. split; [by constructor | done].
  - right. by exists [], d, l.
Qed.

(** C3: the descriptors are validated one at a time in declared order, and
    for each one the alias type is checked first, then the alias name, then
    the capabilities: when the descriptors before [d] pass and [d] does not,
    the exception is the one [d]'s first failing check raises, whatever
    follows [d].  The repeated-alias error is raised exactly when every
    descriptor has passed its own checks and an alias repeats. *)
Theorem compose_validation_order (valid : string → bool)
    (steps : list (pyval * class_type)) (σ : store) :
  (∀ pre d post,
     steps = pre ++ d :: post →
     Forall (λ d', descriptor_ok valid false d' = true) pre →
     descriptor_ok valid (bool_decide (post = [])) d = false →
     ∃ e, check_descriptor valid (bool_decide (post = [])) d = inl e
       ∧ compose valid steps σ = (inl e, σ)
       ∧ classify e = violation_kind valid d)
  ∧ ((∃ e, compose valid steps σ = (inl e, σ) ∧ classify e = DuplicateAlias)
     ↔ descriptors_ok valid steps = true ∧ ¬ NoDup steps.*1).
Proof.
  split.
  - intros pre d post -> Hpre Hbad. by apply compose_first_violation.
  - apply compose_duplicate_alias.
Qed.

Lemma compose_validation_order_witness :
  let steps := [(PyStr "t", transformer); (PyStr "1bad", no_fit); (PyNone, no_fit)] in
  ∃ e, check_descriptor is_valid_name_spec false (PyStr "1bad", no_fit) = inl e
    ∧ compose is_valid_name_spec steps [] = (inl e, [])
    ∧ classify e = InvalidAliasName.
Proof.
  intros steps.
  destruct (compose_validation_order is_valid_name_spec steps []) as [Hfirst _].
  apply (Hfirst [(PyStr "t", transformer)] (PyStr "1bad", no_fit) [(PyNone, no_fit)]).
  - reflexivity.
  - by repeat constructor.
  - reflexivity.
Defined.

(** *** Capabilities *)

(** C2, as stated, fails: a descriptor whose class lacks [fit] but whose
    alias is not a string, or not a valid name, makes [compose] raise
    [TypeError] or the alias [ValueError], not [NotImplementedError]. *)
Lemma compose_missing_fit_bad_alias :
  lacks_capability true no_fit
  ∧ compose is_valid_name_spec [(PyInt 5, no_fit)] [] =
      (inl (TypeError "5 is not a string"), [])
  ∧ compose is_valid_name_spec [(PyStr "1bad", no_fit)] [] =
      (inl (ValueError "1bad is not allowed for an alias"), [])
  ∧ classify (TypeError "5 is not a string") ≠ MissingCapability
  ∧ classify (ValueError "1bad is not allowed for an alias") ≠ MissingCapability.
Proof.
  split; [by left |]. split; [reflexivity |]. split; [reflexivity |].
  split; vm_compute; discriminate.
Qed.

Lemma lacks_capability_capable last c :
  lacks_capability last c ↔ capable last c = false.
Proof.
  unfold lacks_capability, capable.
  destruct (contains (dir c) "fit"), last, (contains (dir c) "predict"),
    (contains (dir c) "predict_proba"), (contains (dir c) "transform");
    simpl; intuition congruence.
Qed.

Lemma check_not_implemented valid last d msg :
  check_descriptor valid last d = inl (NotImplementedError msg) →
  lacks_capability last d.2.
Proof.
  destruct d as [v c]. unfold check_descriptor, lacks_capability. simpl.
  destruct v; try done.
  destruct (valid s); simpl; [| done].
  destruct (contains (dir c) "fit"); simpl; [| by left].
  destruct last.
  - destruct (contains (dir c) "predict"), (contains (dir c) "predict_proba");
      simpl; try done. intros _. right. by right.
  - destruct (contains (dir c) "transform"); simpl; [done |].
    intros _. right. by left.
Qed.

Lemma check_valid_alias valid last d e a :
  d.1 = PyStr a → valid a = true →
  check_descriptor valid last d = inl e →
  ∃ msg, e = NotImplementedError msg.
Proof.
  destruct d as [v c]. simpl. intros -> Ha. unfold check_descriptor. simpl.
  rewrite Ha. simpl.
  repeat case_match; intros [= <-]; by eexists.
Qed.

(** C2, amended: [compose] raises [NotImplementedError] whenever a class
    lacks a capability of its position and the alias of its descriptor and of
    every descriptor before it is a string the naming predicate accepts; it
    raises [NotImplementedError] only for a class that lacks [fit], lacks
    [transform] before the last position, or lacks both [predict] and
    [predict_proba] in the last position; and a last class with [fit] and one
    of [predict], [predict_proba] passes the checks, [transform] or not. *)
Theorem compose_missing_capability (valid : string → bool)
    (steps : list (pyval * class_type)) (σ : store) :
  (∀ pre d post,
     steps = pre ++ d :: post →
     aliases_valid valid (pre ++ [d]) →
     lacks_capability (bool_decide (post = [])) d.2 →
     ∃ msg, compose valid steps σ = (inl (NotImplementedError msg), σ))
  ∧ ((∃ msg, compose valid steps σ = (inl (NotImplementedError msg), σ)) →
     ∃ pre d post, steps = pre ++ d :: post
       ∧ lacks_capability (bool_decide (post = [])) d.2)
  ∧ (∀ a c,
       valid a = true →
       contains (dir c) "fit" = true →
       contains (dir c) "predict" = true ∨ contains (dir c) "predict_proba" = true →
       check_descriptor valid true (PyStr a, c) = inr a).
Proof.
  split; [| split].
  - intros pre d post -> Haliases Hlacks.
    apply Forall_app in Haliases as [Hpre Hd].
    apply Forall_cons in Hd as [(a & Ha & Hvalid) _].
    destruct (first_not_ok valid pre) as [Hok | (l1 & d1 & l2 & -> & Hl1 & Hd1)].
    + destruct (compose_first_violation valid pre d post σ Hok) as (e & He & Hrun & _).
      { apply lacks_capability_capable in Hlacks.
        unfold descriptor_ok. by rewrite Ha, Hvalid, Hlacks. }
      destruct (check_valid_alias _ _ _ _ _ Ha Hvalid He) as [msg ->]. by exists msg.
    + apply Forall_app in Hpre as [_ Hpre].
      apply Forall_cons in Hpre as [(a1 & Ha1 & Hvalid1) _].
      rewrite <- app_assoc, <- app_comm_cons.
      destruct (compose_first_violation valid l1 d1 (l2 ++ d :: post) σ Hl1)
        as (e & He & Hrun & _).
      { rewrite bool_decide_eq_false_2; [done | by destruct l2]. }
      destruct (check_valid_alias _ _ _ _ _ Ha1 Hvalid1 He) as [msg ->]. by exists msg.
  - intros [msg Hrun].
    apply compose_inl in Hrun as [_ [(pre & d & post & -> & Hpre & Hd) | (? & _)]];
      [| done].
    exists pre, d, post. split; [done |]. by eapply check_not_implemented.
  - intros a c Ha Hfit Hpredict. unfold check_descriptor. simpl.
    rewrite Ha, Hfit. simpl.
    by destruct Hpredict as [-> | ->]; [| rewrite andb_false_r].
Qed.

Lemma compose_missing_capability_witness :
  ∃ msg, compose is_valid_name_spec
           [(PyStr "t", estimator); (PyStr "e", estimator); (PyNone, no_fit)] [] =
         (inl (NotImplementedError msg), []).
Proof.
  destruct (compose_missing_capability is_valid_name_spec
              [(PyStr "t", estimator); (PyStr "e", estimator); (PyNone, no_fit)] [])
    as [Hlacks _].
  apply (Hlacks [] (PyStr "t", estimator) [(PyStr "e", estimator); (PyNone, no_fit)]).
  - reflexivity.
  - repeat constructor. exists "t". split; reflexivity.
  - right. left. split; reflexivity.
Defined.

(** *** A repeated alias *)

(** C4, as stated, fails: with a first class that lacks [fit], the list
    [[('a', T1), ('a', T2)]] makes [compose] raise [NotImplementedError]; the
    repeated alias is never looked at. *)
Lemma compose_same_alias_missing_fit :
  compose is_valid_name_spec [(PyStr "a", no_fit); (PyStr "a", estimator)] [] =
    (inl (NotImplementedError "NoFit must implement fit"), [])
  ∧ classify (NotImplementedError "NoFit must implement fit") ≠ DuplicateAlias.
Proof. split; [reflexivity | discriminate]. Qed.

(** C4, amended: with an alias the naming predicate accepts, composing
    [[('a', T1), ('a', T2)]] always fails: with the repeated-alias error when
    [T1] has [fit] and [transform] and [T2] has [fit] and [predict] or
    [predict_proba], with the missing-capability error otherwise. *)
Theorem compose_same_alias_twice (valid : string → bool) (T1 T2 : class_type)
    (σ : store) :
  valid "a" = true →
  ∃ e, compose valid [(PyStr "a", T1); (PyStr "a", T2)] σ = (inl e, σ)
    ∧ classify e =
        if capable false T1 && capable true T2 then DuplicateAlias
        else MissingCapability.
Proof.
  intros Ha.
  destruct (capable false T1) eqn:H1; simpl.
  - destruct (capable true T2) eqn:H2.
    + apply compose_duplicate_alias. split.
      * simpl. unfold descriptor_ok. simpl. by rewrite Ha, H1, H2.
      * intros Hnd. apply NoDup_cons in Hnd as [Hnin _]. apply Hnin. by left.
    + destruct (compose_first_violation valid [(PyStr "a", T1)] (PyStr "a", T2) [] σ)
        as (e & _ & Hrun & Hkind).
      * repeat constructor. unfold descriptor_ok. simpl. by rewrite Ha, H1.
      * unfold descriptor_ok. simpl. by rewrite Ha, H2.
      * exists e. split; [done |]. rewrite Hkind. unfold violation_kind. simpl.
        by rewrite Ha.
  - destruct (compose_first_violation valid [] (PyStr "a", T1) [(PyStr "a", T2)] σ)
      as (e & _ & Hrun & Hkind).
    + constructor.
    + unfold descriptor_ok. simpl. by rewrite Ha, H1.
    + exists e. split; [done |]. rewrite Hkind. unfold violation_kind. simpl.
      by rewrite Ha.
Qed.

Lemma compose_same_alias_twice_witness :
  ∃ e, compose is_valid_name_spec [(PyStr "a", transformer); (PyStr "a", estimator)] []
       = (inl e, [])
    ∧ classify e = DuplicateAlias.
Proof.
  apply (compose_same_alias_twice is_valid_name_spec transformer estimator []).
  reflexivity.
Defined.

(** *** Alias names *)

Lemma is_valid_name_spec_contract : naming_contract is_valid_name_spec.
Proof.
  intros s. unfold is_valid_name_spec.
  rewrite negb_false_iff, !orb_true_iff, bool_decide_eq_true. tauto.
Qed.

(** C5, as stated, fails: behind a descriptor that fails an earlier check,
    the alias ['1bad'] or ['x__y'] is never reached and the exception is
    another one. *)
Lemma compose_bad_name_not_reached :
  compose is_valid_name_spec [(PyInt 5, transformer); (PyStr "1bad", estimator)] [] =
    (inl (TypeError "5 is not a string"), [])
  ∧ compose is_valid_name_spec [(PyStr "t", no_fit); (PyStr "x__y", estimator)] [] =
    (inl (NotImplementedError "NoFit must implement fit"), [])
  ∧ classify (TypeError "5 is not a string") ≠ InvalidAliasName
  ∧ classify (NotImplementedError "NoFit must implement fit") ≠ InvalidAliasName.
Proof. repeat split; (reflexivity || discriminate). Qed.

(** C5, amended: under the naming contract, a descriptor with alias ['1bad']
    or ['x__y'] makes [compose] fail with the alias [ValueError] whenever
    every descriptor before it has a string alias and the capabilities of its
    position, whatever its own class and whatever follows; the error names
    that very alias when the earlier descriptors pass their checks (in
    particular when there is none).  No call of [compose] ever raises the
    naming error for ['valid_name'], a descriptor with that alias being
    judged on its capabilities alone. *)
Theorem compose_alias_naming (valid : string → bool) :
  naming_contract valid →
  (∀ a pre c post σ,
     a = "1bad" ∨ a = "x__y" →
     Forall (λ d, isinstance_str d.1 = true ∧ capable false d.2 = true) pre →
     (∃ e, compose valid (pre ++ (PyStr a, c) :: post) σ = (inl e, σ)
        ∧ classify e = InvalidAliasName)
     ∧ (Forall (λ d, descriptor_ok valid false d = true) pre →
        compose valid (pre ++ (PyStr a, c) :: post) σ =
          (inl (ValueError (a +:+ " is not allowed for an alias")), σ)))
  ∧ (∀ steps σ σ',
       compose valid steps σ ≠
         (inl (ValueError "valid_name is not allowed for an alias"), σ'))
  ∧ (∀ last c, descriptor_ok valid last (PyStr "valid_name", c) = capable last c).
Proof.
  intros Hcontract.
  assert (valid "valid_name" = true) as Hvalid.
  { destruct (valid "valid_name") eqn:Hv; [done |].
    apply Hcontract in Hv as [Hv | [Hv | Hv]]; discriminate. }
  split; [| split].
  - intros a pre c post σ Ha Hpre.
    assert (valid a = false) as Hbad.
    { apply Hcontract. destruct Ha as [-> | ->]; [right; by left | right; by right]. }
    assert (Forall (λ d, descriptor_ok valid false d = true) pre →
            compose valid (pre ++ (PyStr a, c) :: post) σ =
              (inl (ValueError (a +:+ " is not allowed for an alias")), σ)) as Hexact.
    { intros Hok. apply compose_first_failure; [done |].
      unfold check_descriptor. simpl. by rewrite Hbad. }
    split; [| done].
    destruct (first_not_ok valid pre) as [Hok | (l1 & d1 & l2 & -> & Hl1 & Hd1)].
    + eexists. split; [by apply Hexact | apply classify_alias_name].
    + apply Forall_app in Hpre as [_ Hpre].
      apply Forall_cons in Hpre as [[Hstr Hcap] _].
      rewrite <- app_assoc, <- app_comm_cons.
      destruct (compose_first_violation valid l1 d1 (l2 ++ (PyStr a, c) :: post) σ Hl1)
        as (e & _ & Hrun & Hkind).
      { rewrite bool_decide_eq_false_2; [done | by destruct l2]. }
      exists e. split; [done |]. rewrite Hkind.
      unfold violation_kind. unfold descriptor_ok in Hd1.
      destruct d1.1; try done. rewrite Hcap, andb_true_r in Hd1. by rewrite Hd1.
  - intros steps σ σ' Hrun.
    apply compose_inl in Hrun as [_ [(pre & d & post & -> & Hpre & Hd) | (? & _)]];
      [| done].
    destruct d as [v c]. unfold check_descriptor in Hd. simpl in Hd.
    destruct v; try done.
    destruct (valid s) eqn:Hs; simpl in Hd.
    + by repeat case_match.
    + injection Hd as Hd.
      apply (string_app_inj_r s "valid_name" " is not allowed for an alias") in Hd.
      congruence.
  - intros last c. unfold descriptor_ok. simpl. by rewrite Hvalid.
Qed.

Lemma compose_alias_naming_witness :
  compose is_valid_name_spec
    ([(PyStr "t", transformer)] ++ (PyStr "1bad", no_fit) :: [(PyNone, no_fit)]) [] =
    (inl (ValueError "1bad is not allowed for an alias"), [])
  ∧ descriptor_ok is_valid_name_spec true (PyStr "valid_name", estimator) = true.
Proof.
  destruct (compose_alias_naming is_valid_name_spec is_valid_name_spec_contract)
    as (Hbad & _ & Hgood).
  split.
  - apply (Hbad "1bad" [(PyStr "t", transformer)] no_fit [(PyNone, no_fit)] []).
    + by left.
    + by repeat constructor.
    + by repeat constructor.
  - by rewrite Hgood.
Defined.

(** ** Flat keys *)




Global Instance flat_key_inj a : Inj (=) (=) (flat_key a).
Proof.
  intros q1 q2 Heq. unfold flat_key in Heq.
  by apply (inj (String.append a)), (inj (String.append "__")) in Heq.
Qed.


(** ** Pipeline instances *)

Section PipelineFacts.

Context {step : Type} `{!StepProtocol step}.

Lemma build_aliases flat descriptors (p : pipeline (step:=step)) :
  build flat descriptors = inr p →
  Forall2 (λ d s, d.1 = s.1 ∧ ∃ kw, instantiate d.2 kw = inr s.2) descriptors p.
Proof.
  revert p. induction descriptors as [| [a ty] rest IH]; intros p; simpl.
  - intros [= <-]. constructor.
  - destruct (instantiate ty (partition_params flat a)) as [e | s] eqn:Hs; [done |].
    destruct (build flat rest) as [e | p0]; [done |].
    intros [= <-]. constructor; [| by apply IH].
    split; [done |]. by eexists.
Qed.

Lemma new_aliases cls flat (p : pipeline (step:=step)) :
  new cls flat = inr p → p.*1 = (declared cls).*1.
Proof.
  unfold new. destruct (all_keys_known _ flat); [| done].
  intros Hp%build_aliases.
  induction Hp as [| d s ds p [Hd _] _ IH]; [done |].
  rewrite !fmap_cons. by f_equal.
Qed.

Lemma all_keys_known_false aliases (flat : gmap string pyval) k v a q :
  flat !! k = Some v → split_key k = Some (a, q) → a ∉ aliases →
  all_keys_known aliases flat = false.
Proof.
  intros Hk Hsplit Ha. unfold all_keys_known.
  apply bool_decide_eq_false_2. intros Hall.
  specialize (Hall k v Hk). unfold known_key in Hall. rewrite Hsplit in Hall.
  by apply bool_decide_eq_true in Hall.
Qed.

End PipelineFacts.

(** ** Claims about composed types and their instances *)

Lemma compose_inr_lookup valid steps σ t σ' cls :
  compose valid steps σ = (inr t, σ') → σ' !! t = Some cls →
  cls = composed steps ∧ valid_steps valid steps.
Proof.
  intros (Hvalid & -> & ->)%compose_inr_valid Hcls.
  rewrite list_lookup_middle in Hcls by done. by injection Hcls as <-.
Qed.

Lemma declared_composed valid steps :
  descriptors_ok valid steps = true →
  Forall2 (λ d d', d.1 = PyStr d'.1 ∧ d.2 = d'.2) steps (declared (composed steps)).
Proof.
  unfold declared. simpl. induction steps as [| [v c] steps IH]; simpl.
  - constructor.
  - intros [Hd Hrest]%andb_true_iff. destruct v; try done.
    unfold str_alias at 1. simpl. constructor; [done | by apply IH].
Qed.

Section Instances.

Context {step : Type} `{!StepProtocol step}.

(** C1: a step list that passes every check makes [compose] return a new
    class (at an address the store did not hold) whose [steps] attribute is
    the list itself; and every instance of that class holds one step instance
    per descriptor, in the declared order, under the declared alias and built
    from the declared class. *)
Theorem compose_binds_steps (valid : string → bool)
    (descriptors : list (pyval * class_type)) (σ : store) :
  valid_steps valid descriptors →
  ∃ cls, compose valid descriptors σ = (inr (length σ), σ ++ [cls])
    ∧ σ !! length σ = None
    ∧ (σ ++ [cls]) !! length σ = Some cls
    ∧ steps cls = descriptors
    ∧ ∀ flat (p : pipeline (step:=step)),
        new cls flat = inr p →
        Forall2 (λ d s, d.1 = PyStr s.1 ∧ ∃ kw, instantiate d.2 kw = inr s.2)
                descriptors p.
Proof.
  intros [Hok Hnd]. exists (composed descriptors).
  split; [| split; [by apply lookup_ge_None_2 |
                    split; [by apply list_lookup_middle | split; [done |]]]].
  - rewrite compose_descriptors_ok by done. by rewrite bool_decide_eq_true_2.
  - intros flat p. unfold new. destruct (all_keys_known _ flat); [| done].
    intros Hp%build_aliases.
    pose proof (declared_composed valid descriptors Hok) as Hdecl.
    clear Hok Hnd. revert p Hp. induction Hdecl as [| d d' ds ds' [Hd1 Hd2] _ IH]; intros p Hp.
    + inversion Hp. constructor.
    + inversion Hp as [| ? s ? p' [Hs (kw & Hkw)] Hp']; subst.
      constructor; [| by apply IH].
      split; [by rewrite Hd1, Hs |]. exists kw. by rewrite Hd2.
Qed.

(** C7: a pipeline type composed with the aliases ['a'] and ['b'] rejects a
    flat mapping that holds a key with alias prefix ['c'], at construction
    and in [set_params] of any of its instances. *)
Theorem unknown_parameter_rejected (valid : string → bool) (T1 T2 : class_type)
    (σ σ' : store) (t : nat) (cls : pipeline_class)
    (flat : gmap string pyval) (k q : string) (v : pyval) :
  compose valid [(PyStr "a", T1); (PyStr "b", T2)] σ = (inr t, σ') →
  σ' !! t = Some cls →
  flat !! k = Some v →
  split_key k = Some ("c", q) →
  new (step:=step) cls flat = inl UnknownParameter
  ∧ ∀ flat0 (p : pipeline (step:=step)),
      new cls flat0 = inr p → set_params p flat = inl UnknownParameter.
Proof.
  intros Hrun Hcls Hk Hsplit.
  destruct (compose_inr_lookup _ _ _ _ _ _ Hrun Hcls) as [-> _].
  assert ("c" ∉ (declared (composed [(PyStr "a", T1); (PyStr "b", T2)])).*1) as Hc.
  { cbn. rewrite !elem_of_cons, elem_of_nil. by intros [? | [? | ?]]. }
  split.
  - unfold new. by rewrite (all_keys_known_false _ _ _ _ _ _ Hk Hsplit Hc).
  - intros flat0 p Hp%new_aliases. unfold set_params. rewrite Hp.
    by rewrite (all_keys_known_false _ _ _ _ _ _ Hk Hsplit Hc).
Qed.

End Instances.

Lemma compose_binds_steps_witness :
  let descriptors := [(PyStr "scaler", transformer); (PyStr "nb", estimator)] in
  ∃ cls, compose is_valid_name_spec descriptors [] = (inr 0, [cls])
    ∧ (@nil pipeline_class) !! 0 = None
    ∧ [cls] !! 0 = Some cls
    ∧ steps cls = descriptors
    ∧ ∀ flat (p : pipeline (step:=gmap string pyval)),
        new (StepProtocol0:=sk_step) cls flat = inr p →
        Forall2 (λ d s, d.1 = PyStr s.1
                        ∧ ∃ kw, instantiate (StepProtocol:=sk_step) d.2 kw = inr s.2)
                descriptors p.
Proof.
  intros descriptors.
  apply (compose_binds_steps (StepProtocol0:=sk_step) is_valid_name_spec descriptors []).
  split; [reflexivity |].
  repeat constructor; rewrite ?elem_of_cons, ?elem_of_nil; intuition discriminate.
Defined.

Lemma unknown_parameter_rejected_witness :
  new (StepProtocol0:=sk_step)
    (composed [(PyStr "a", transformer); (PyStr "b", estimator)])
    {[ "c__x" := PyInt 1 ]} = inl UnknownParameter
  ∧ ∀ flat0 (p : pipeline (step:=gmap string pyval)),
      new (StepProtocol0:=sk_step)
        (composed [(PyStr "a", transformer); (PyStr "b", estimator)]) flat0 = inr p →
      set_params (StepProtocol0:=sk_step) p {[ "c__x" := PyInt 1 ]} = inl UnknownParameter.
Proof.
  apply (unknown_parameter_rejected (StepProtocol0:=sk_step) is_valid_name_spec
           transformer estimator []
           [composed [(PyStr "a", transformer); (PyStr "b", estimator)]] 0
           (composed [(PyStr "a", transformer); (PyStr "b", estimator)])
           {[ "c__x" := PyInt 1 ]} "c__x" "x" (PyInt 1)).
  - reflexivity.
  - reflexivity.
  - reflexivity.
  - reflexivity.
Defined.

(** ** The flat-parameter round trip *)



Section RoundTrip.

Context {step : Type} `{!StepProtocol step}.








End RoundTrip.





Section RoundTripClaim.

Context {step : Type} `{!StepProtocol step}.


End RoundTripClaim.


(** * Further properties of [compose] and of the module body *)

Lemma check_inl_cases valid last v c e :
  check_descriptor valid last (v, c) = inl e →
  match e with
  | TypeError msg => isinstance_str v = false ∧ msg = format v +:+ " is not a string"
  | ValueError msg =>
    ∃ a, v = PyStr a ∧ valid a = false ∧ msg = a +:+ " is not allowed for an alias"
  | NotImplementedError msg =>
    (contains (dir c) "fit" = false ∧ msg = __name__ c +:+ " must implement fit")
    ∨ (last = false ∧ contains (dir c) "transform" = false
       ∧ msg = __name__ c +:+ " must implement transform")
    ∨ (last = true ∧ contains (dir c) "predict" = false
       ∧ contains (dir c) "predict_proba" = false
       ∧ msg = __name__ c +:+ " must implement predict or predict_proba")
  end.
Proof.
  unfold check_descriptor. simpl.
  destruct v as [s | | |]; try (intros [= <-]; done).
  destruct (valid s) eqn:Hs; simpl; [| intros [= <-]; by exists s].
  destruct (contains (dir c) "fit") eqn:Hfit; simpl; [| intros [= <-]; by left].
  destruct last.
  - destruct (contains (dir c) "predict") eqn:Hp,
      (contains (dir c) "predict_proba") eqn:Hpp; simpl; try done.
    intros [= <-]. right. by right.
  - destruct (contains (dir c) "transform") eqn:Htr; simpl; [done |].
    intros [= <-]. right. by left.
Qed.

Lemma compose_not_ok valid steps σ :
  descriptors_ok valid steps = false → ∃ e, compose valid steps σ = (inl e, σ).
Proof.
  intros Hbad. destruct (compose valid steps σ) as [[e | t] σ'] eqn:Hrun.
  - apply compose_inl in Hrun as [-> _]. by exists e.
  - apply compose_inr_valid in Hrun as ([Hok _] & _). congruence.
Qed.

Lemma forallb_Forall_true {A} (f : A → bool) (l : list A) :
  Forall (λ x, f x = true) l ↔ forallb f l = true.
Proof.
  induction l as [| x l IH]; simpl.
  - split; [done | constructor].
  - rewrite Forall_cons, andb_true_iff, IH. done.
Qed.

(** X1: a class comes out of [compose] only for a list whose aliases are
    pairwise distinct strings the naming predicate accepts and whose classes
    all list [fit], those before the last listing [transform] and the last
    one [predict] or [predict_proba]. *)
Theorem composed_steps_valid (valid : string → bool)
    (descriptors : list (pyval * class_type)) (σ σ' : store) (t : nat) :
  compose valid descriptors σ = (inr t, σ') →
  NoDup descriptors.*1
  ∧ ∀ pre d post,
      descriptors = pre ++ d :: post →
      ∃ a, d.1 = PyStr a ∧ valid a = true
        ∧ contains (dir d.2) "fit" = true
        ∧ (post ≠ [] → contains (dir d.2) "transform" = true)
        ∧ (post = [] → contains (dir d.2) "predict" = true
                       ∨ contains (dir d.2) "predict_proba" = true).
Proof.
  intros ([Hok Hnd] & _ & _)%compose_inr_valid. split; [done |].
  intros pre d post Hsplit.
  pose proof (descriptors_ok_at _ _ _ _ _ Hok Hsplit) as Hd.
  unfold descriptor_ok, capable in Hd. destruct d.1 as [a | | |]; try done.
  apply andb_true_iff in Hd as [Ha Hd]. apply andb_true_iff in Hd as [Hfit Hd].
  exists a. split; [done |]. split; [done |]. split; [done |].
  case_bool_decide as Hpost; split; try done.
  by apply orb_true_iff in Hd.
Qed.

Lemma composed_steps_valid_witness :
  NoDup [PyStr "scaler"; PyStr "nb"]
  ∧ ∀ pre d post,
      [(PyStr "scaler", transformer); (PyStr "nb", estimator)] = pre ++ d :: post →
      ∃ a, d.1 = PyStr a ∧ is_valid_name_spec a = true
        ∧ contains (dir d.2) "fit" = true
        ∧ (post ≠ [] → contains (dir d.2) "transform" = true)
        ∧ (post = [] → contains (dir d.2) "predict" = true
                       ∨ contains (dir d.2) "predict_proba" = true).
Proof.
  apply (composed_steps_valid is_valid_name_spec
           [(PyStr "scaler", transformer); (PyStr "nb", estimator)] []
           [composed [(PyStr "scaler", transformer); (PyStr "nb", estimator)]] 0).
  reflexivity.
Defined.

(** X2: an exception out of [compose] leaves the store as it was and names
    its culprit: the repeated-alias [ValueError] comes with a repeated alias;
    any other exception comes from one descriptor of the list, a [TypeError]
    quoting its non-string alias, a [ValueError] quoting its rejected alias,
    a [NotImplementedError] quoting the name of its class and the method
    that class does not list ([transform] only before the last position,
    [predict] or [predict_proba] only in the last). *)
Theorem compose_exception_culprit (valid : string → bool)
    (descriptors : list (pyval * class_type)) (σ σ' : store) (e : exception) :
  compose valid descriptors σ = (inl e, σ') →
  σ' = σ
  ∧ ((e = ValueError "Repeated aliases are not allowed" ∧ ¬ NoDup descriptors.*1)
     ∨ ∃ pre v c post,
         descriptors = pre ++ (v, c) :: post
         ∧ match e with
           | TypeError msg =>
             isinstance_str v = false ∧ msg = format v +:+ " is not a string"
           | ValueError msg =>
             ∃ a, v = PyStr a ∧ valid a = false
               ∧ msg = a +:+ " is not allowed for an alias"
           | NotImplementedError msg =>
             (contains (dir c) "fit" = false
              ∧ msg = __name__ c +:+ " must implement fit")
             ∨ (post ≠ [] ∧ contains (dir c) "transform" = false
                ∧ msg = __name__ c +:+ " must implement transform")
             ∨ (post = [] ∧ contains (dir c) "predict" = false
                ∧ contains (dir c) "predict_proba" = false
                ∧ msg = __name__ c +:+ " must implement predict or predict_proba")
           end).
Proof.
  intros [-> [(pre & [v c] & post & -> & _ & Hd) | (-> & _ & Hdup)]]%compose_inl.
  - split; [done |]. right. exists pre, v, c, post. split; [done |].
    apply check_inl_cases in Hd. destruct e as [msg | msg | msg]; [done | done |].
    destruct Hd as [Hfit | [(Hlast & Htr & Hmsg) | (Hlast & Hp & Hpp & Hmsg)]].
    + by left.
    + right. left. by apply bool_decide_eq_false in Hlast.
    + right. right. by apply bool_decide_eq_true in Hlast.
  - split; [done |]. by left.
Qed.

Lemma compose_exception_culprit_witness :
  ∃ pre v c post,
    [(PyStr "t", transformer); (PyStr "e", transformer)] = pre ++ (v, c) :: post
    ∧ ((contains (dir c) "fit" = false
        ∧ "StandardScaler must implement predict or predict_proba" =
          __name__ c +:+ " must implement fit")
       ∨ (post ≠ [] ∧ contains (dir c) "transform" = false
          ∧ "StandardScaler must implement predict or predict_proba" =
            __name__ c +:+ " must implement transform")
       ∨ (post = [] ∧ contains (dir c) "predict" = false
          ∧ contains (dir c) "predict_proba" = false
          ∧ "StandardScaler must implement predict or predict_proba" =
            __name__ c +:+ " must implement predict or predict_proba")).
Proof.
  destruct (compose_exception_culprit is_valid_name_spec
              [(PyStr "t", transformer); (PyStr "e", transformer)] [] []
              (NotImplementedError "StandardScaler must implement predict or predict_proba"))
    as [_ [[Hdup _] | Hculprit]].
  - reflexivity.
  - discriminate Hdup.
  - exact Hculprit.
Defined.

Lemma contains_subseteq (l l' : list string) x :
  l ⊆ l' → contains l x = true → contains l' x = true.
Proof.
  unfold contains. intros Hsub Hx%bool_decide_eq_true.
  apply bool_decide_eq_true. by apply Hsub.
Qed.

Lemma capable_extends last c c' :
  dir c ⊆ dir c' → capable last c = true → capable last c' = true.
Proof.
  intros Hsub. unfold capable.
  intros [Hfit Hrest]%andb_true_iff.
  rewrite (contains_subseteq _ _ _ Hsub Hfit). simpl.
  destruct last.
  - apply orb_true_iff in Hrest as [Hp | Hpp]; apply orb_true_iff;
      [left | right]; by eapply contains_subseteq.
  - by eapply contains_subseteq.
Qed.

Lemma descriptors_ok_extends valid steps steps' :
  Forall2 extends steps steps' →
  descriptors_ok valid steps = true → descriptors_ok valid steps' = true.
Proof.
  induction 1 as [| [v c] [v' c'] rest rest' [Hv Hsub] Hrest IH]; [done |].
  simpl in Hv, Hsub. subst v'. simpl.
  intros [Hd Hok]%andb_true_iff. rewrite IH by done. rewrite andb_true_r.
  assert (bool_decide (rest' = []) = bool_decide (rest = [])) as ->.
  { apply bool_decide_ext. apply Forall2_length in Hrest.
    split; intros ->; [by destruct rest | by destruct rest']. }
  unfold descriptor_ok in *. simpl in *. destruct v; try done.
  apply andb_true_iff in Hd as [-> Hcap]. simpl. by eapply capable_extends.
Qed.

Lemma extends_aliases steps steps' :
  Forall2 extends steps steps' → steps.*1 = steps'.*1.
Proof.
  induction 1 as [| d d' rest rest' [Hv _] _ IH]; [done |].
  rewrite !fmap_cons. by f_equal.
Qed.

(** X3: listing more never hurts.  When [compose] accepts a list, it accepts
    every list with the same aliases whose classes list, in [dir], at least
    what the original classes list. *)
Theorem compose_more_capabilities (valid : string → bool)
    (descriptors descriptors' : list (pyval * class_type)) (σ σ1 : store) (t : nat) :
  Forall2 extends descriptors descriptors' →
  compose valid descriptors σ = (inr t, σ1) →
  compose valid descriptors' σ = (inr (length σ), σ ++ [composed descriptors']).
Proof.
  intros Hext ([Hok Hnd] & _ & _)%compose_inr_valid.
  rewrite compose_descriptors_ok by (by eapply descriptors_ok_extends).
  rewrite bool_decide_eq_true_2; [done |].
  by rewrite <- (extends_aliases _ _ Hext).
Qed.

Lemma compose_more_capabilities_witness :
  compose is_valid_name_spec
    [(PyStr "km", transformer_with_predict); (PyStr "nb", estimator)] [] =
  (inr 0, [composed [(PyStr "km", transformer_with_predict); (PyStr "nb", estimator)]]).
Proof.
  apply (compose_more_capabilities is_valid_name_spec
           [(PyStr "km", transformer); (PyStr "nb", estimator)]
           [(PyStr "km", transformer_with_predict); (PyStr "nb", estimator)] []
           [composed [(PyStr "km", transformer); (PyStr "nb", estimator)]] 0).
  - constructor; [split; [reflexivity |] |].
    + intros x. cbn. rewrite !elem_of_cons, !elem_of_nil. tauto.
    + constructor; [by split | constructor].
  - reflexivity.
Defined.

Lemma contains_same_members (l l' : list string) x :
  (∀ y, y ∈ l ↔ y ∈ l') → contains l x = contains l' x.
Proof. intros Hmem. unfold contains. by apply bool_decide_ext. Qed.

Lemma compose_loop_same_members valid n aliases rest rest' :
  Forall2 same_members rest rest' →
  compose_loop valid n aliases rest = compose_loop valid n aliases rest'.
Proof.
  intros Hsame. revert aliases.
  induction Hsame as [| [v c] [v' c'] rest rest' (Hv & Hname & Hdir) _ IH];
    intros aliases; [done |].
  simpl in Hv, Hname, Hdir. subst v'. simpl.
  rewrite Hname, !(contains_same_members (dir c) (dir c')) by done.
  by repeat (case_match; try done).
Qed.

(** X4: [compose] sees of a class its name and which names [dir] lists,
    nothing else: two lists with the same aliases and class names whose
    classes list the same names, in whatever order and however often, have
    the same outcome, the same exception with the same message or a class at
    the same address. *)
Theorem compose_same_members (valid : string → bool)
    (descriptors descriptors' : list (pyval * class_type)) (σ : store) :
  Forall2 same_members descriptors descriptors' →
  (compose valid descriptors σ).1 = (compose valid descriptors' σ).1.
Proof.
  intros Hsame. rewrite !compose_unfold.
  rewrite <- (Forall2_length _ _ _ Hsame).
  rewrite <- (compose_loop_same_members valid _ _ _ _ Hsame).
  destruct (compose_loop valid (length descriptors) [] descriptors); [done |].
  by case_bool_decide.
Qed.

Lemma compose_same_members_witness :
  (compose is_valid_name_spec
     [(PyStr "km", transformer_with_predict); (PyStr "nb", estimator)] []).1 =
  (compose is_valid_name_spec
     [(PyStr "km", Class_type "KMeans"
                     [("transform", Data PyNone); ("fit", Method); ("predict", Method)]
                     []);
      (PyStr "nb", estimator)] []).1.
Proof.
  apply (compose_same_members is_valid_name_spec).
  constructor; [split; [reflexivity | split; [reflexivity |]] |].
  - intros x. cbn. rewrite !elem_of_cons, !elem_of_nil. tauto.
  - constructor; [by split | constructor].
Defined.

Lemma descriptors_ok_snoc valid initial d :
  descriptors_ok valid (initial ++ [d]) =
    forallb (descriptor_ok valid false) initial && descriptor_ok valid true d.
Proof.
  rewrite descriptors_ok_app by done. simpl. by rewrite andb_true_r.
Qed.

(** X5: the way the module builds its pipelines, by appending one estimator
    to a list of transformers.  When the descriptors of [initial] pass the
    checks of the positions before the last and have distinct aliases,
    [compose] accepts [initial + [(alias, class)]] exactly when the alias is
    accepted by the naming predicate and differs from those of [initial] and
    the class lists [fit] and [predict] or [predict_proba]. *)
Theorem compose_append_estimator (valid : string → bool)
    (initial : list (pyval * class_type)) (a : string) (c : class_type) (σ : store) :
  Forall (λ d, descriptor_ok valid false d = true) initial →
  NoDup initial.*1 →
  compose valid (initial ++ [(PyStr a, c)]) σ =
    (inr (length σ), σ ++ [composed (initial ++ [(PyStr a, c)])])
  ↔ valid a = true ∧ (PyStr a ∉ initial.*1)
    ∧ contains (dir c) "fit" = true
    ∧ (contains (dir c) "predict" = true ∨ contains (dir c) "predict_proba" = true).
Proof.
  intros Hinit Hnd. apply forallb_Forall_true in Hinit.
  assert (NoDup (initial ++ [(PyStr a, c)]).*1 ↔ PyStr a ∉ initial.*1) as Hnd'.
  { rewrite fmap_app, NoDup_app. simpl. split.
    - intros (_ & Hdisj & _) Hin. apply (Hdisj _ Hin). by left.
    - intros Hnin. split; [done |]. split; [| apply NoDup_singleton].
      intros x Hx ->%list_elem_of_singleton. done. }
  split.
  - intros ([Hok Hnd2] & _)%compose_inr_valid.
    rewrite descriptors_ok_snoc, Hinit in Hok. simpl in Hok.
    unfold descriptor_ok, capable in Hok. simpl in Hok.
    apply andb_true_iff in Hok as [Ha Hok]. apply andb_true_iff in Hok as [Hfit Hp].
    split; [done |]. split; [by apply Hnd' |]. split; [done |].
    by apply orb_true_iff.
  - intros (Ha & Hnin & Hfit & Hp).
    rewrite compose_descriptors_ok.
    + rewrite bool_decide_eq_true_2; [done | by apply Hnd'].
    + rewrite descriptors_ok_snoc, Hinit. unfold descriptor_ok, capable. simpl.
      rewrite Ha, Hfit. simpl. by apply orb_true_iff.
Qed.

Lemma compose_append_estimator_witness :
  compose is_valid_name_spec
    ([(PyStr "ohe", transformer); (PyStr "inpute", transformer)]
     ++ [(PyStr "linear", regressor)]) [] =
  (inr 0, [composed ([(PyStr "ohe", transformer); (PyStr "inpute", transformer)]
                     ++ [(PyStr "linear", regressor)])]).
Proof.
  apply (compose_append_estimator is_valid_name_spec
           [(PyStr "ohe", transformer); (PyStr "inpute", transformer)]
           "linear" regressor []).
  - by repeat constructor.
  - repeat constructor; rewrite ?elem_of_cons, ?elem_of_nil; intuition discriminate.
  - split; [reflexivity |]. split; [| split; [reflexivity | by left]].
    cbn. rewrite !elem_of_cons, elem_of_nil. intuition discriminate.
Defined.

(** X6: a pipeline list cannot in general be cut short.  When [compose]
    accepts a list, the list without its last descriptor is accepted only if
    its new last class lists [predict] or [predict_proba]; otherwise
    [compose] raises [NotImplementedError] naming that class. *)
Theorem compose_without_last (valid : string → bool)
    (pre : list (pyval * class_type)) (d1 d2 : pyval * class_type)
    (σ σ' : store) (t : nat) :
  compose valid (pre ++ [d1; d2]) σ = (inr t, σ') →
  compose valid (pre ++ [d1]) σ =
    if contains (dir d1.2) "predict" || contains (dir d1.2) "predict_proba"
    then (inr (length σ), σ ++ [composed (pre ++ [d1])])
    else (inl (NotImplementedError
                 (__name__ d1.2 +:+ " must implement predict or predict_proba")), σ).
Proof.
  intros ([Hok Hnd] & _)%compose_inr_valid.
  rewrite descriptors_ok_app in Hok by done.
  apply andb_true_iff in Hok as [Hpre Hok]. simpl in Hok.
  apply andb_true_iff in Hok as [Hd1 _].
  destruct d1 as [v c]. unfold descriptor_ok, capable in Hd1. simpl in Hd1.
  destruct v as [a | | |]; try done.
  apply andb_true_iff in Hd1 as [Ha Hd1]. apply andb_true_iff in Hd1 as [Hfit _].
  simpl. destruct (contains (dir c) "predict" || contains (dir c) "predict_proba")
    eqn:Hp.
  - rewrite compose_descriptors_ok.
    + rewrite bool_decide_eq_true_2; [done |].
      replace (pre ++ [(PyStr a, c); d2]) with ((pre ++ [(PyStr a, c)]) ++ [d2]) in Hnd
        by (by rewrite <- app_assoc).
      rewrite (fmap_app _ (pre ++ _)) in Hnd. by apply NoDup_app in Hnd as [Hnd _].
    + rewrite descriptors_ok_snoc, Hpre. unfold descriptor_ok, capable. simpl.
      by rewrite Ha, Hfit, Hp.
  - apply compose_first_failure; [by apply forallb_Forall_true |].
    unfold check_descriptor. simpl. rewrite Ha, Hfit. simpl.
    apply orb_false_iff in Hp as [-> ->]. done.
Qed.

Lemma compose_without_last_witness :
  compose is_valid_name_spec
    ([(PyStr "ohe", transformer)] ++ [(PyStr "inpute", transformer)]) [] =
  (inl (NotImplementedError "StandardScaler must implement predict or predict_proba"),
   []).
Proof.
  apply (compose_without_last is_valid_name_spec [(PyStr "ohe", transformer)]
           (PyStr "inpute", transformer) (PyStr "naive", estimator) []
           [composed [(PyStr "ohe", transformer); (PyStr "inpute", transformer);
                      (PyStr "naive", estimator)]] 0).
  reflexivity.
Defined.

(** X7: the aliases have to differ, the classes do not.  One class that
    lists [fit], [transform] and [predict] or [predict_proba] can fill every
    position of a pipeline, under any distinct aliases the naming predicate
    accepts. *)
Theorem compose_repeated_class (valid : string → bool) (c : class_type)
    (aliases : list string) (σ : store) :
  NoDup aliases →
  Forall (λ a, valid a = true) aliases →
  capable false c = true → capable true c = true →
  compose valid ((λ a, (PyStr a, c)) <$> aliases) σ =
    (inr (length σ), σ ++ [composed ((λ a, (PyStr a, c)) <$> aliases)]).
Proof.
  intros Hnd Hvalid Hmid Hlast.
  rewrite compose_descriptors_ok.
  - rewrite bool_decide_eq_true_2; [done |].
    rewrite <- list_fmap_compose. apply NoDup_fmap_2; [| done].
    by intros ?? [=].
  - clear Hnd. induction Hvalid as [| a aliases Ha _ IH]; [done |].
    rewrite fmap_cons. simpl. rewrite IH, andb_true_r.
    unfold descriptor_ok. simpl. rewrite Ha. simpl.
    by case_bool_decide.
Qed.

Lemma compose_repeated_class_witness :
  compose is_valid_name_spec
    ((λ a, (PyStr a, transformer_with_predict)) <$> ["a"; "b"; "c"]) [] =
  (inr 0, [composed ((λ a, (PyStr a, transformer_with_predict)) <$> ["a"; "b"; "c"])]).
Proof.
  apply (compose_repeated_class is_valid_name_spec transformer_with_predict
           ["a"; "b"; "c"] []).
  - repeat constructor; rewrite ?elem_of_cons, ?elem_of_nil; intuition discriminate.
  - by repeat constructor.
  - reflexivity.
  - reflexivity.
Defined.

(** ** The module body *)

Section ModuleBodyFacts.

Variable valid : string → bool.
Variables OneHotEncoder SimpleImputer : class_type.

Local Abbreviation initial := (__initial_steps__ OneHotEncoder SimpleImputer).

Lemma baseliner_descriptors_ok a c :
  descriptors_ok valid (initial ++ [(PyStr a, c)]) =
    baseliner_ready valid OneHotEncoder SimpleImputer a c.
Proof.
  unfold baseliner_ready, __initial_steps__. cbn [app descriptors_ok].
  rewrite !bool_decide_eq_false_2 by done. rewrite bool_decide_eq_true_2 by done.
  unfold descriptor_ok. cbn [fst snd]. by rewrite andb_true_r, !andb_assoc.
Qed.

(** One baseliner: the call of [compose] and the [class] statement on its
    result. *)
Lemma baseliner_run name a c σ :
  a = "naive" ∨ a = "linear" →
  (compose valid (initial ++ [(PyStr a, c)]) ≫= class_ name) σ =
    if baseliner_ready valid OneHotEncoder SimpleImputer a c
    then (inr (length σ + 1),
          σ ++ [composed (initial ++ [(PyStr a, c)]);
                Pipeline_class name ["MiraiPipeline"] (initial ++ [(PyStr a, c)])])
    else (((compose valid (initial ++ [(PyStr a, c)]) ≫= class_ name) σ).1, σ).
Proof.
  intros Ha. rewrite <- baseliner_descriptors_ok.
  unfold mbind, M_bind.
  destruct (descriptors_ok valid (initial ++ [(PyStr a, c)])) eqn:Hok.
  - rewrite compose_descriptors_ok by done.
    rewrite bool_decide_eq_true_2.
    + unfold class_. rewrite list_lookup_middle by done.
      rewrite length_app, <- app_assoc. done.
    + cbn. destruct Ha as [-> | ->];
        repeat constructor; rewrite ?elem_of_cons, ?elem_of_nil; intuition discriminate.
  - destruct (compose_not_ok valid _ σ Hok) as [e ->]. done.
Qed.

Lemma baseliner_run_error name a c σ :
  a = "naive" ∨ a = "linear" →
  baseliner_ready valid OneHotEncoder SimpleImputer a c = false →
  ∃ e, (compose valid (initial ++ [(PyStr a, c)]) ≫= class_ name) σ = (inl e, σ).
Proof.
  intros Ha Hready. rewrite <- baseliner_descriptors_ok in Hready.
  unfold mbind, M_bind.
  destruct (compose_not_ok valid _ σ Hready) as [e ->]. by exists e.
Qed.

End ModuleBodyFacts.

(** X8: importing the module.  It defines both baseliners exactly when the
    naming predicate accepts ['ohe'], ['inpute'], ['naive'] and ['linear'],
    the two encoder classes list [fit] and [transform], and the two
    estimator classes list [fit] and [predict] or [predict_proba]; four class
    objects are then created, each baseliner finding in [steps] the two
    initial descriptors followed by its own estimator.  Otherwise the import
    raises: before anything is created when the first baseliner is at fault,
    with [NaiveBayesBaseliner] already defined when only the second is. *)
Theorem module_body_outcome (valid : string → bool)
    (OneHotEncoder SimpleImputer GaussianNB LinearRegression : class_type)
    (σ : store) :
  let naive := __initial_steps__ OneHotEncoder SimpleImputer
               ++ [(PyStr "naive", GaussianNB)] in
  let linear := __initial_steps__ OneHotEncoder SimpleImputer
                ++ [(PyStr "linear", LinearRegression)] in
  let σ1 := σ ++ [composed naive;
                  Pipeline_class "NaiveBayesBaseliner" ["MiraiPipeline"] naive] in
  let ready1 := baseliner_ready valid OneHotEncoder SimpleImputer "naive" GaussianNB in
  let ready2 :=
    baseliner_ready valid OneHotEncoder SimpleImputer "linear" LinearRegression in
  match module_body valid OneHotEncoder SimpleImputer GaussianNB LinearRegression σ with
  | (inr (nb, lr), σ') =>
    ready1 = true ∧ ready2 = true
    ∧ nb = length σ + 1 ∧ lr = length σ + 3
    ∧ σ' = σ1 ++ [composed linear;
                  Pipeline_class "LinearRegressionBaseliner" ["MiraiPipeline"] linear]
  | (inl e, σ') =>
    (ready1 = false ∧ σ' = σ) ∨ (ready1 = true ∧ ready2 = false ∧ σ' = σ1)
  end.
Proof.
  intros naive linear σ1 ready1 ready2.
  assert (module_body valid OneHotEncoder SimpleImputer GaussianNB LinearRegression σ =
          match (compose valid naive ≫= class_ "NaiveBayesBaseliner") σ with
          | (inl e, σ') => (inl e, σ')
          | (inr nb, σ') =>
            match (compose valid linear ≫= class_ "LinearRegressionBaseliner") σ' with
            | (inl e, σ'') => (inl e, σ'')
            | (inr lr, σ'') => (inr (nb, lr), σ'')
            end
          end) as ->.
  { unfold module_body, mbind, M_bind, mret, M_ret. fold naive linear.
    destruct (compose valid naive σ) as [[e | base] σa]; [done |].
    destruct (class_ "NaiveBayesBaseliner" base σa) as [[e | nb] σb]; [done |].
    destruct (compose valid linear σb) as [[e | base'] σc]; [done |].
    by destruct (class_ "LinearRegressionBaseliner" base' σc) as [[e | lr] σd]. }
  unfold naive at 1.
  rewrite baseliner_run by (by left). fold naive ready1 σ1.
  destruct ready1 eqn:H1.
  - unfold linear at 1. rewrite baseliner_run by (by right). fold linear ready2.
    destruct ready2 eqn:H2.
    + repeat split; try done.
      * unfold σ1. rewrite length_app. simpl. lia.
    + destruct (baseliner_run_error valid OneHotEncoder SimpleImputer
                  "LinearRegressionBaseliner" "linear" LinearRegression σ1)
        as [e He]; [by right | done |].
      fold linear in He. rewrite He. simpl. right. done.
  - destruct (baseliner_run_error valid OneHotEncoder SimpleImputer
                "NaiveBayesBaseliner" "naive" GaussianNB σ)
      as [e He]; [by left | done |].
    fold naive in He. rewrite He. simpl. by left.
Qed.

(** With classes that list what scikit-learn's list, the import succeeds. *)
Example module_body_sklearn :
  module_body is_valid_name_spec transformer transformer estimator regressor [] =
    (inr (1, 3),
     [composed [(PyStr "ohe", transformer); (PyStr "inpute", transformer);
                (PyStr "naive", estimator)];
      Pipeline_class "NaiveBayesBaseliner" ["MiraiPipeline"]
        [(PyStr "ohe", transformer); (PyStr "inpute", transformer);
         (PyStr "naive", estimator)];
      composed [(PyStr "ohe", transformer); (PyStr "inpute", transformer);
                (PyStr "linear", regressor)];
      Pipeline_class "LinearRegressionBaseliner" ["MiraiPipeline"]
        [(PyStr "ohe", transformer); (PyStr "inpute", transformer);
         (PyStr "linear", regressor)]]).
Proof. reflexivity. Qed.

(** ** Rearranging and joining step lists *)

Lemma forallb_Permutation {A} (f : A → bool) (l l' : list A) :
  l ≡ₚ l' → forallb f l = forallb f l'.
Proof.
  induction 1 as [| x l l' _ IH | x y l | l l' l'' _ IH1 _ IH2]; simpl.
  - done.
  - by rewrite IH.
  - by rewrite !andb_assoc, (andb_comm (f y)).
  - by rewrite IH1.
Qed.

(** X9: only the last position is special.  When [compose] accepts a list,
    it accepts every rearrangement of it that keeps the last descriptor
    last. *)
Theorem compose_reorder_transformers (valid : string → bool)
    (pre pre' : list (pyval * class_type)) (d : pyval * class_type)
    (σ σ' : store) (t : nat) :
  pre ≡ₚ pre' →
  compose valid (pre ++ [d]) σ = (inr t, σ') →
  compose valid (pre' ++ [d]) σ = (inr (length σ), σ ++ [composed (pre' ++ [d])]).
Proof.
  intros Hperm ([Hok Hnd] & _)%compose_inr_valid.
  rewrite compose_descriptors_ok.
  - rewrite bool_decide_eq_true_2; [done |].
    by rewrite <- Hperm.
  - rewrite descriptors_ok_snoc in Hok |- *.
    by rewrite <- (forallb_Permutation _ _ _ Hperm).
Qed.

Lemma compose_reorder_transformers_witness :
  compose is_valid_name_spec
    ([(PyStr "inpute", transformer); (PyStr "ohe", transformer_with_predict)]
     ++ [(PyStr "naive", estimator)]) [] =
  (inr 0,
   [composed ([(PyStr "inpute", transformer); (PyStr "ohe", transformer_with_predict)]
              ++ [(PyStr "naive", estimator)])]).
Proof.
  apply (compose_reorder_transformers is_valid_name_spec
           [(PyStr "ohe", transformer_with_predict); (PyStr "inpute", transformer)]
           [(PyStr "inpute", transformer); (PyStr "ohe", transformer_with_predict)]
           (PyStr "naive", estimator) []
           [composed [(PyStr "ohe", transformer_with_predict);
                      (PyStr "inpute", transformer); (PyStr "naive", estimator)]] 0).
  - apply perm_swap.
  - reflexivity.
Defined.

(** X10: joining two pipelines.  When [compose] accepts a list ending in [d]
    and accepts a second, non-empty list, it accepts the first followed by
    the second exactly when the class of [d], no longer last, lists
    [transform] and no alias of the first list is an alias of the second. *)
Theorem compose_join (valid : string → bool)
    (pre rest : list (pyval * class_type)) (d : pyval * class_type)
    (σ σ1 σ2 : store) (t1 t2 : nat) :
  rest ≠ [] →
  compose valid (pre ++ [d]) σ = (inr t1, σ1) →
  compose valid rest σ = (inr t2, σ2) →
  compose valid (pre ++ d :: rest) σ =
    (inr (length σ), σ ++ [composed (pre ++ d :: rest)])
  ↔ contains (dir d.2) "transform" = true
    ∧ ∀ v, v ∈ (pre ++ [d]).*1 → v ∉ rest.*1.
Proof.
  intros Hrest ([Hok1 Hnd1] & _)%compose_inr_valid ([Hok2 Hnd2] & _)%compose_inr_valid.
  rewrite descriptors_ok_snoc in Hok1. apply andb_true_iff in Hok1 as [Hpre Hd].
  assert (descriptors_ok valid (pre ++ d :: rest) = contains (dir d.2) "transform")
    as Hok.
  { rewrite descriptors_ok_app by done. rewrite Hpre. simpl.
    rewrite bool_decide_eq_false_2 by done. rewrite Hok2, andb_true_r.
    unfold descriptor_ok, capable in Hd |- *. destruct d.1; try done.
    apply andb_true_iff in Hd as [-> Hd]. apply andb_true_iff in Hd as [-> _].
    done. }
  assert (NoDup (pre ++ d :: rest).*1 ↔ ∀ v, v ∈ (pre ++ [d]).*1 → v ∉ rest.*1)
    as Hnd.
  { replace (pre ++ d :: rest) with ((pre ++ [d]) ++ rest)
      by (by rewrite <- app_assoc).
    rewrite (fmap_app _ (pre ++ [d]) rest), NoDup_app. split.
    - by intros (_ & Hdisj & _).
    - by intros Hdisj. }
  split.
  - intros ([Hok' Hnd'] & _)%compose_inr_valid.
    split; [by rewrite <- Hok | by apply Hnd].
  - intros [Htr Hdisj]. rewrite compose_descriptors_ok by (by rewrite Hok).
    rewrite bool_decide_eq_true_2; [done | by apply Hnd].
Qed.

Lemma compose_join_witness :
  compose is_valid_name_spec
    ([(PyStr "ohe", transformer)]
     ++ (PyStr "km", transformer_with_predict) :: [(PyStr "naive", estimator)]) [] =
  (inr 0,
   [composed ([(PyStr "ohe", transformer)]
              ++ (PyStr "km", transformer_with_predict)
                 :: [(PyStr "naive", estimator)])]).
Proof.
  apply (compose_join is_valid_name_spec [(PyStr "ohe", transformer)]
           [(PyStr "naive", estimator)] (PyStr "km", transformer_with_predict) []
           [composed [(PyStr "ohe", transformer); (PyStr "km", transformer_with_predict)]]
           [composed [(PyStr "naive", estimator)]] 0 0).
  - discriminate.
  - reflexivity.
  - reflexivity.
  - split; [reflexivity |]. intros v. cbn.
    rewrite !elem_of_cons, !elem_of_nil. intuition (subst; discriminate).
Defined.
